(** * The Open Library keyword pipeline of script_2.py

    A shallow embedding of the fetch, parse, deduplicate and count
    pipeline of [script_2.py], followed by the properties it has.

    Python dictionaries are [gmap]s and the [seen] set of
    [remove_duplicates] is a [gset].  A loop that grows a list with
    [append] or [extend] is a left fold that adds at the end of its
    accumulator.  The [while True] loop of [fetch_books] is iterated
    under a bound on the number of iterations, and [requests.get] is a
    function from the request parameters to a response.  The order in
    which the futures of [main] complete is an argument of the run.

    The file has three parts: the model of the program, the vocabulary
    in which its properties are stated together with the data of the
    scenarios, and the lemmas and theorems. *)

From Stdlib Require Import ZArith Lia.
From Stdlib Require SpecFloat.
From stdpp Require Import gmap strings list fin_maps countable.

#[local] Set Warnings "-clear-no-such-hyp".

(** * Part I: the program *)

(** ** Python values carried by a JSON document

    The scalars a decoded JSON document holds in the two fields the
    script reads: [None] (JSON null), [bool], [int] and [str].  JSON
    numbers with a fraction or an exponent (Python [float]) and nested
    arrays and objects are not part of this universe. *)

Inductive pyval : Type :=
  | PNone
  | PBool (b : bool)
  | PInt (z : Z)
  | PStr (s : string).

#[global] Instance pyval_eq_dec : EqDecision pyval.
Proof. solve_decision. Defined.

Definition pyval_encode (v : pyval) : (unit + bool) + (Z + string) :=
  match v with
  | PNone => inl (inl tt)
  | PBool b => inl (inr b)
  | PInt z => inr (inl z)
  | PStr s => inr (inr s)
  end.

Definition pyval_decode (x : (unit + bool) + (Z + string)) : pyval :=
  match x with
  | inl (inl _) => PNone
  | inl (inr b) => PBool b
  | inr (inl z) => PInt z
  | inr (inr s) => PStr s
  end.

#[global] Instance pyval_countable : Countable pyval :=
  inj_countable' pyval_encode pyval_decode
    (λ v, match v with
          | PNone | PBool _ | PInt _ | PStr _ => eq_refl
          end).

(** [isinstance(v, int)]: [bool] is a subclass of [int] in Python, so
    [True] and [False] pass the test as well. *)
Definition isinstance_int (v : pyval) : bool :=
  match v with
  | PInt _ | PBool _ => true
  | PNone | PStr _ => false
  end.

(** [int(b)] for a [bool]: [True] is [1] and [False] is [0]. *)
Definition bool_int (b : bool) : Z := if b then 1%Z else 0%Z.

(** The integer an [int] instance denotes. *)
Definition int_value (v : pyval) : option Z :=
  match v with
  | PInt z => Some z
  | PBool b => Some (bool_int b)
  | PNone | PStr _ => None
  end.

(** Python's [==] and [hash] make [True] and [1] (and [False] and [0])
    the same member of a set or key of a dict.  [py_canon] picks one
    representative of each [==]-class, so that equality of canonical
    forms is Python equality. *)
Definition py_canon (v : pyval) : pyval :=
  match v with
  | PBool b => PInt (bool_int b)
  | _ => v
  end.

(** Python's [v == w] on these values. *)
Definition py_eq (v w : pyval) : Prop := py_canon v = py_canon w.

(** ** Raw records and entries *)

(** One element of [data['docs']]: a JSON object. *)
Abbreviation book := (gmap string pyval).

(** [d.get(key, default)] *)
Definition dict_get (d : book) (key : string) (dflt : pyval) : pyval :=
  default dflt (d !! key).

(** The three-element list [[title, first_publish_year, keyword]]. *)
Record entry : Type := Entry {
  e_title : pyval;
  e_year : pyval;
  e_keyword : string
}.

#[global] Instance entry_eq_dec : EqDecision entry.
Proof. solve_decision. Defined.

(** The tuple [(title, year)] as a member of the [seen] set. *)
Definition identifier (b : entry) : pyval * pyval :=
  (py_canon (e_title b), py_canon (e_year b)).

(** ** parse_book_titles_and_dates *)

Definition parse_step (keyword : string) (parsed_books : list entry) (bk : book)
  : list entry :=
  let title := dict_get bk "title" (PStr "N/A") in
  let first_publish_year := dict_get bk "first_publish_year" (PStr "N/A") in
  if isinstance_int first_publish_year
  then parsed_books ++ [Entry title first_publish_year keyword]
  else parsed_books.

Definition parse_book_titles_and_dates (data : list book) (keyword : string)
  : list entry :=
  fold_left (parse_step keyword) data [].

(** ** remove_duplicates *)

Definition dedup_step (st : gset (pyval * pyval) * list entry) (b : entry)
  : gset (pyval * pyval) * list entry :=
  let '(seen, unique_books) := st in
  if decide (identifier b ∈ seen)
  then (seen, unique_books)
  else ({[identifier b]} ∪ seen, unique_books ++ [b]).

Definition remove_duplicates (books : list entry) : list entry :=
  snd (fold_left dedup_step books (∅, [])).

(** ** Exceptions

    The two built-in exceptions the counting loop can raise, and the
    outcome of a computation that either returns or raises. *)

Inductive exn : Type := TypeError | KeyError.

Inductive result (A : Type) : Type :=
  | Return (a : A)
  | Raise (e : exn).
Arguments Return {A} a.
Arguments Raise {A} e.

Definition rbind {A B : Type} (r : result A) (k : A → result B) : result B :=
  match r with
  | Return a => k a
  | Raise e => Raise e
  end.

Notation "x ←? r ; k" := (rbind r (λ x, k))
  (at level 20, r at level 100, k at level 200, right associativity,
   format "x  ←?  r ;  '/' k").

(** [a <= v] and [v <= b] for an [int] [a], [b]: defined on [int]
    instances, [TypeError] on [None] and [str]. *)
Definition int_le_py (a : Z) (v : pyval) : result bool :=
  match int_value v with
  | Some z => Return (a <=? z)%Z
  | None => Raise TypeError
  end.

Definition py_le_int (v : pyval) (b : Z) : result bool :=
  match int_value v with
  | Some z => Return (z <=? b)%Z
  | None => Raise TypeError
  end.

(** The chained comparison [start <= year <= end]: the second test is
    evaluated only when the first one holds. *)
Definition chained_le (start : Z) (year : pyval) (end_ : Z) : result bool :=
  lo ←? int_le_py start year;
  if lo : bool then py_le_int year end_ else Return false.

(** ** count_books_by_period *)

Definition TIME_PERIODS : list (Z * Z) :=
  [(2002, 2003); (2004, 2005); (2006, 2007);
   (2008, 2009); (2010, 2011); (2012, 2013); (2014, 2015);
   (2016, 2017); (2018, 2019); (2020, 2021); (2022, 2023)]%Z.

(** The inner [for start, end in TIME_PERIODS] loop for one book, with
    its [break] at the first period that contains the year. *)
Fixpoint count_one (periods : list (Z * Z)) (year : pyval)
    (period_counts : gmap (Z * Z) nat) : result (gmap (Z * Z) nat) :=
  match periods with
  | [] => Return period_counts
  | (start, end_) :: rest =>
      hit ←? chained_le start year end_;
      if hit : bool then
        match period_counts !! (start, end_) with
        | Some c => Return (<[(start, end_) := S c]> period_counts)
        | None => Raise KeyError
        end
      else count_one rest year period_counts
  end.

(** The outer [for book in parsed_books] loop. *)
Fixpoint count_all (periods : list (Z * Z)) (parsed_books : list entry)
    (period_counts : gmap (Z * Z) nat) : result (gmap (Z * Z) nat) :=
  match parsed_books with
  | [] => Return period_counts
  | b :: rest =>
      period_counts' ←? count_one periods (e_year b) period_counts;
      count_all periods rest period_counts'
  end.

(** [count_books_by_period] with the module constant it reads as a
    parameter. *)
Definition count_books_by_period_in (periods : list (Z * Z))
    (parsed_books : list entry) : result (gmap (Z * Z) nat) :=
  count_all periods parsed_books (list_to_map ((λ period, (period, 0)) <$> periods)).

Definition count_books_by_period (parsed_books : list entry)
  : result (gmap (Z * Z) nat) :=
  count_books_by_period_in TIME_PERIODS parsed_books.

(** ** fetch_books *)

(** The [params] dictionary of the request. *)
Record params : Type := Params {
  p_title : string;
  p_limit : nat;
  p_page : nat
}.

(** What [requests.get] followed by [raise_for_status] and [json]
    gives: a [RequestException], or the decoded body, of which the
    loop reads only [data['docs']] ([None] when the key is absent). *)
Inductive response : Type :=
  | RequestException
  | Json (docs : option (list book)).

(** The state of the loop: [params], [all_books], and the requests
    issued so far (a ghost trace, oldest first). *)
Record fetch_state : Type := FetchState {
  fs_params : params;
  fs_all_books : list book;
  fs_requests : list params
}.

Inductive loop_step : Type :=
  | Continue (st : fetch_state)
  | Break (st : fetch_state).

Definition next_page (p : params) : params :=
  Params (p_title p) (p_limit p) (p_page p + 1).

(** One iteration of the [while True] body. *)
Definition fetch_iter (get : params → response) (st : fetch_state) : loop_step :=
  let p := fs_params st in
  let issued := fs_requests st ++ [p] in
  match get p with
  | RequestException => Break (FetchState p (fs_all_books st) issued)
  | Json None => Break (FetchState p (fs_all_books st) issued)
  | Json (Some []) => Break (FetchState p (fs_all_books st) issued)
  | Json (Some docs) =>
      let all_books := fs_all_books st ++ docs in
      if length docs <? p_limit p
      then Break (FetchState p all_books issued)
      else Continue (FetchState (next_page p) all_books issued)
  end.

(** The loop, cut off after [fuel] iterations ([None]: still running). *)
Fixpoint fetch_loop (fuel : nat) (get : params → response) (st : fetch_state)
  : option fetch_state :=
  match fuel with
  | O => None
  | S fuel' =>
      match fetch_iter get st with
      | Break st' => Some st'
      | Continue st' => fetch_loop fuel' get st'
      end
  end.

Definition fetch_init (keyword : string) : fetch_state :=
  FetchState (Params keyword 1000 1) [] [].

(** [fetch_books]: the list returned, with the requests it issued. *)
Definition fetch_books (fuel : nat) (get : params → response) (keyword : string)
  : option (list book * list params) :=
  st ← fetch_loop fuel get (fetch_init keyword);
  Some (fs_all_books st, fs_requests st).

(** ** process_keyword *)

Definition process_keyword (fuel : nat) (get : params → response) (keyword : string)
  : option (list entry * list params) :=
  '(books_data, issued) ← fetch_books fuel get keyword;
  match books_data with
  | [] => Some ([], issued)
  | _ :: _ =>
      let parsed_books := parse_book_titles_and_dates books_data keyword in
      Some (remove_duplicates parsed_books, issued)
  end.

(** ** main *)

Definition KEYWORDS : list string :=
  ["Machine Learning"; "Artificial Intelligence"; "Deep Learning"; "Neural Networks";
   "Natural Language Processing"; "Computer Vision"; "Reinforcement Learning";
   "Generative Adversarial Networks"; "Supervised Learning"; "Data Science"].

(** The [for future in as_completed(futures)] loop: [completed] lists
    the results of the futures in the order in which they completed. *)
Definition merge_step (aggregated_data result : list entry) : list entry :=
  match result with
  | [] => aggregated_data
  | _ :: _ => aggregated_data ++ result
  end.

Definition merge_completed (completed : list (list entry)) : list entry :=
  fold_left merge_step completed [].

(** Lines 217 to 225 of [main]: merge, then deduplicate globally. *)
Definition aggregate (completed : list (list entry)) : list entry :=
  remove_duplicates (merge_completed completed).

(** What [main] has computed when [count_books_by_period] returns: the
    deduplicated table, the period counts, and the requests issued by
    the workers (ghost). *)
Record run_output : Type := RunOutput {
  aggregated_data : list entry;
  period_counts : gmap (Z * Z) nat;
  requests_issued : list params
}.

(** [main] up to the call of [count_books_by_period], with the two
    module constants as parameters.  [completion] lists the submitted
    keywords in the order in which their futures complete; the outer
    [option] is [None] while some worker is still in its loop. *)
Definition main_in (periods : list (Z * Z)) (fuel : nat) (get : params → response)
    (completion : list string) : option (result run_output) :=
  finished ← mapM (process_keyword fuel get) completion;
  let aggregated_data := aggregate (fst <$> finished) in
  Some (period_counts ←? count_books_by_period_in periods aggregated_data;
        Return (RunOutput aggregated_data period_counts (concat (snd <$> finished)))).

(** [main] with the module's [TIME_PERIODS], up to the same line; the
    CSV files and the exploration of its second part are not modelled. *)
Definition main (fuel : nat) (get : params → response) (completion : list string)
  : option (result run_output) :=
  main_in TIME_PERIODS fuel get completion.

(** * Part II: vocabulary of the properties *)

(** ** Parsing and deduplication *)

(** What one record contributes to the parsed list. *)
Definition parse_one (keyword : string) (bk : book) : option entry :=
  let first_publish_year := dict_get bk "first_publish_year" (PStr "N/A") in
  if isinstance_int first_publish_year
  then Some (Entry (dict_get bk "title" (PStr "N/A")) first_publish_year keyword)
  else None.

(** The entries [remove_duplicates] keeps, when the loop starts from
    the set [seen]. *)
Fixpoint dedup_from (seen : gset (pyval * pyval)) (books : list entry) : list entry :=
  match books with
  | [] => []
  | b :: rest =>
      if decide (identifier b ∈ seen)
      then dedup_from seen rest
      else b :: dedup_from ({[identifier b]} ∪ seen) rest
  end.

(** The first entry of [books] with a given identifier, with its position. *)
Definition first_with (k : pyval * pyval) (books : list entry) : option (nat * entry) :=
  list_find (λ b, identifier b = k) books.

(** ** Counting *)

(** [year] lies in the closed interval [[start, end]]. *)
Definition in_period (year : Z) (period : Z * Z) : Prop :=
  (period.1 ≤ year ≤ period.2)%Z.

#[global] Instance in_period_dec year period : Decision (in_period year period).
Proof. unfold in_period. apply _. Defined.

(** The first period, in the order of the list, that contains [year]. *)
Definition first_period (periods : list (Z * Z)) (year : Z) : option (Z * Z) :=
  snd <$> list_find (in_period year) periods.

(** The period an entry is counted in, if any. *)
Definition entry_period (periods : list (Z * Z)) (b : entry) : option (Z * Z) :=
  year ← int_value (e_year b); first_period periods year.

(** The entry has a year that is an [int] instance. *)
Definition valid_year (b : entry) : Prop := isinstance_int (e_year b) = true.

#[global] Instance valid_year_dec b : Decision (valid_year b).
Proof. unfold valid_year. apply _. Defined.

(** [sum(period_counts.values())] *)
Definition total_count (period_counts : gmap (Z * Z) nat) : nat :=
  sum_list_with snd (map_to_list period_counts).

(** The number of entries whose first containing period is [p]. *)
Definition hits (periods : list (Z * Z)) (p : Z * Z) (books : list entry) : nat :=
  length (filter (λ b, entry_period periods b = Some p) books).

(** The entry has an integer year that some period contains. *)
Definition covered (periods : list (Z * Z)) (b : entry) : Prop :=
  ∃ year, int_value (e_year b) = Some year ∧ Exists (in_period year) periods.

#[global] Instance covered_dec periods b : Decision (covered periods b).
Proof.
  unfold covered. destruct (int_value (e_year b)) as [year|].
  - destruct (decide (Exists (in_period year) periods)) as [Hex|Hno].
    + left. by exists year.
    + right. by intros (? & [= <-] & ?).
  - right. by intros (? & [=] & _).
Defined.

(** ** Pages *)

(** The records a response adds to [all_books]. *)
Definition page_docs (r : response) : list book :=
  match r with
  | Json (Some docs) => docs
  | Json None | RequestException => []
  end.

(** The response is a page after which the loop asks for the next one:
    a non-empty [docs] that is not shorter than the limit. *)
Definition full_page (limit : nat) (r : response) : Prop :=
  ∃ docs, r = Json (Some docs) ∧ docs ≠ [] ∧ limit ≤ length docs.

(** The request for page [i] of a keyword, as [fetch_books] builds it. *)
Definition page_request (keyword : string) (i : nat) : params :=
  Params keyword 1000 i.

(** ** Periods *)

(** No year lies in two different periods of the list. *)
Definition periods_disjoint (periods : list (Z * Z)) : Prop :=
  ∀ p q year, p ∈ periods → q ∈ periods →
              in_period year p → in_period year q → p = q.

(** The entry has an integer year inside the period. *)
Definition year_in (period : Z * Z) (b : entry) : Prop :=
  ∃ year, int_value (e_year b) = Some year ∧ in_period year period.

#[global] Instance year_in_dec period b : Decision (year_in period b).
Proof.
  unfold year_in. destruct (int_value (e_year b)) as [year|].
  - destruct (decide (in_period year period)) as [Hin|Hout].
    + left. by exists year.
    + right. by intros (? & [= <-] & ?).
  - right. by intros (? & [=] & _).
Defined.

(** ** Configuration *)

(** The partition the specification asks for: every period has its
    start no later than its end, and the periods are listed in
    ascending order without overlap. *)
Fixpoint spec_valid_partition (periods : list (Z * Z)) : bool :=
  match periods with
  | [] => true
  | (start, end_) :: rest =>
      (start <=? end_)%Z
      && match rest with
         | [] => true
         | (start', _) :: _ => (end_ <? start')%Z
         end
      && spec_valid_partition rest
  end.

(** The configurations the specification calls invalid. *)
Definition spec_invalid_configuration (keywords : list string)
    (periods : list (Z * Z)) : Prop :=
  keywords = [] ∨ spec_valid_partition periods = false.

(** ** Scenarios *)

Definition book_X : book :=
  {[ "title" := PStr "X"; "first_publish_year" := PInt 2005 ]}.

Definition book_Y : book :=
  {[ "title" := PStr "Y"; "first_publish_year" := PInt 2010 ]}.

(** The record of the year-exclusion scenario: its year is the string
    ["unknown"]. *)
Definition book_unknown : book :=
  {[ "title" := PStr "X"; "first_publish_year" := PStr "unknown" ]}.

(** The source answers ["A"] with one record and ["B"] with two, on
    page 1; every other page is empty. *)
Definition mock_get (p : params) : response :=
  match p_page p with
  | 1 =>
      if decide (p_title p = "A") then Json (Some [book_X])
      else if decide (p_title p = "B") then Json (Some [book_X; book_Y])
      else Json (Some [])
  | _ => Json (Some [])
  end.

Definition example_periods : list (Z * Z) := [(2004, 2005); (2006, 2011)]%Z.

Definition overlapping_periods : list (Z * Z) := [(2000, 2010); (2005, 2015)]%Z.

Definition sample_table : list entry :=
  [Entry (PStr "X") (PInt 2005) "A"; Entry (PStr "Y") (PInt 2010) "B";
   Entry (PStr "Z") (PInt 1999) "B"; Entry (PStr "W") (PBool true) "A"].

(** A fetcher whose first page has 1000 records and whose second
    request fails. *)
Definition failing_get (p : params) : response :=
  match p_page p with
  | 1 => Json (Some (replicate 1000 ({[ "title" := PStr "X";
                                        "first_publish_year" := PInt 2005 ]} : book)))
  | _ => RequestException
  end.

(** A fetcher whose first page holds one record more than the limit. *)
Definition oversize_get (p : params) : response :=
  match p_page p with
  | 1 => Json (Some (replicate 1001 (∅ : book)))
  | _ => Json (Some [])
  end.

(** The fetcher of the pagination scenario: pages of 1000, 1000, 400
    and 0 records. *)
Definition decreasing_get (p : params) : response :=
  match p_page p with
  | 1 | 2 => Json (Some (replicate 1000 (∅ : book)))
  | 3 => Json (Some (replicate 400 (∅ : book)))
  | _ => Json (Some [])
  end.

(** A source every page of which is full. *)
Definition always_full_get (p : params) : response :=
  Json (Some (replicate 1000 (∅ : book))).

(** * The program of script_1.py

    The single-title script: it fetches every page of the search for
    one title, parses each record into a row of five fields, and hands
    the rows to pandas.  The calls of [logging] and of pandas are left
    out. *)

Module Script1.

#[local] Set Warnings "-register-all".

(** ** Python values

    What a field of a decoded record can hold, that is, what
    [response.json()] builds: [None], a [bool], an [int], a [float]
    (given by its sign, mantissa and exponent), a [str], a list, or a
    dictionary, given by its items in order (their keys, which are
    strings, are distinct).  A [str] is given by its UTF-8 encoding. *)
Inductive jval : Type :=
  | JNone
  | JBool (b : bool)
  | JInt (z : Z)
  | JFloat (f : SpecFloat.spec_float)
  | JStr (s : string)
  | JList (l : list jval)
  | JObj (items : list (string * jval)).

(** One element of [data['docs']]. *)
Abbreviation doc := (gmap string jval).

(** [d.get(key, default)] *)
Definition dict_get (d : doc) (key : string) (dflt : jval) : jval :=
  default dflt (d !! key).

Inductive exn : Type := TypeError | KeyError | IndexError.

Inductive result (A : Type) : Type :=
  | Return (a : A)
  | Raise (e : exn).
Arguments Return {A} a.
Arguments Raise {A} e.

Definition rbind {A B : Type} (r : result A) (k : A → result B) : result B :=
  match r with
  | Return a => k a
  | Raise e => Raise e
  end.

Definition TITLE : string := "lord of the rings".

Definition CSV_COLUMNS : list string :=
  ["Title"; "Author(s)"; "First Publish Year"; "First Publisher";
   "Number of Pages Median"].

(** ** fetch_books *)

(** The [params] dictionary of the request. *)
Record params : Type := Params {
  p_title : string;
  p_page : nat
}.

(** The four [except] clauses of the outer [try]. *)
Inductive request_error : Type :=
  | ConnectionError
  | Timeout
  | HTTPError
  | OtherRequestException.

(** What [requests.get], [raise_for_status] and [json] give: an
    exception of [requests], a body that is not JSON ([ValueError]), or
    the decoded body, of which the loop reads [data['docs']] ([None]
    when the key is absent).  The decoded body is taken to be a JSON
    object, and its [docs], when present, a list of JSON objects, as
    the API sends them. *)
Inductive response : Type :=
  | Failed (e : request_error)
  | BadJson
  | Body (docs : option (list doc)).

(** The state of the loop: [page], [books_data], and the requests
    issued so far (a ghost trace, oldest first). *)
Record fetch_state : Type := FetchState {
  fs_page : nat;
  fs_books_data : list doc;
  fs_requests : list params
}.

Inductive loop_step : Type :=
  | Continue (st : fetch_state)
  | Break (st : fetch_state)
  | Raised (e : exn).

(** One iteration of the [while True] body.  [data['docs']] on a body
    without the key raises a [KeyError], which no [except] clause of
    the function catches. *)
Definition fetch_iter (title : string) (get : params → response) (st : fetch_state)
  : loop_step :=
  let params := Params title (fs_page st) in
  let issued := fs_requests st ++ [params] in
  match get params with
  | Failed _ => Break (FetchState (fs_page st) (fs_books_data st) issued)
  | BadJson => Break (FetchState (fs_page st) (fs_books_data st) issued)
  | Body None => Raised KeyError
  | Body (Some docs) =>
      let books_data := fs_books_data st ++ docs in
      if length docs =? 0
      then Break (FetchState (fs_page st) books_data issued)
      else Continue (FetchState (fs_page st + 1) books_data issued)
  end.

(** The loop, cut off after [fuel] iterations ([None]: still running). *)
Fixpoint fetch_loop (fuel : nat) (title : string) (get : params → response)
    (st : fetch_state) : option (result fetch_state) :=
  match fuel with
  | O => None
  | S fuel' =>
      match fetch_iter title get st with
      | Break st' => Some (Return st')
      | Raised e => Some (Raise e)
      | Continue st' => fetch_loop fuel' title get st'
      end
  end.

(** [fetch_books]: the list returned, with the requests it issued. *)
Definition fetch_books (fuel : nat) (get : params → response) (title : string)
  : option (result (list doc * list params)) :=
  r ← fetch_loop fuel title get (FetchState 1 [] []);
  Some (rbind r (λ st, Return (fs_books_data st, fs_requests st))).

(** ** parse_books *)

(** The strings [sep.join(v)] puts together: the elements of a list,
    which must all be [str], the characters of a [str], or the keys of
    a dictionary; any other value is not iterable. *)
Fixpoint list_strs (l : list jval) : result (list string) :=
  match l with
  | [] => Return []
  | JStr s :: rest => rbind (list_strs rest) (λ ss, Return (s :: ss))
  | _ :: _ => Raise TypeError
  end.

(** A byte [10xxxxxx], which continues a character of several bytes. *)
Definition is_continuation (c : Ascii.ascii) : bool :=
  match c with
  | Ascii.Ascii _ _ _ _ _ _ false true => true
  | _ => false
  end.

(** The characters of a string, read from its end: the continuation
    bytes still waiting for their leading byte, and the characters
    after them. *)
Fixpoint split_chars (s : string) : string * list string :=
  match s with
  | EmptyString => (EmptyString, [])
  | String c rest =>
      let '(pending, cs) := split_chars rest in
      if is_continuation c
      then (String c pending, cs)
      else (EmptyString, String c pending :: cs)
  end.

(** The characters (code points) a [str] iterates over, each as a
    string of one character. *)
Definition chars (s : string) : list string :=
  let '(pending, cs) := split_chars s in
  match pending with
  | EmptyString => cs
  | String _ _ => pending :: cs
  end.

Definition join (sep : string) (v : jval) : result string :=
  match v with
  | JList l => rbind (list_strs l) (λ ss, Return (String.concat sep ss))
  | JStr s => Return (String.concat sep (chars s))
  | JObj items => Return (String.concat sep (fst <$> items))
  | JNone | JBool _ | JInt _ | JFloat _ => Raise TypeError
  end.

(** [f == 0.0], which holds of both zeros. *)
Definition float_is_zero (f : SpecFloat.spec_float) : bool :=
  match f with
  | SpecFloat.S754_zero _ => true
  | _ => false
  end.

(** The truth value of [v] in [publishers[0] if publishers else 'N/A']. *)
Definition truthy (v : jval) : bool :=
  match v with
  | JNone => false
  | JBool b => b
  | JInt z => negb (z =? 0)%Z
  | JFloat f => negb (float_is_zero f)
  | JStr s => negb (String.eqb s "")
  | JList l => match l with [] => false | _ :: _ => true end
  | JObj items => match items with [] => false | _ :: _ => true end
  end.

(** [v[0]]: the first element of a list, the first character of a
    [str]; a dictionary, whose keys are strings, has no key [0]. *)
Definition index0 (v : jval) : result jval :=
  match v with
  | JList (x :: _) => Return x
  | JList [] => Raise IndexError
  | JStr s =>
      match chars s with
      | c :: _ => Return (JStr c)
      | [] => Raise IndexError
      end
  | JObj _ => Raise KeyError
  | JNone | JBool _ | JInt _ | JFloat _ => Raise TypeError
  end.

(** The body of the [for book in data] loop: the row of one record. *)
Definition parse_row (bk : doc) : result (list jval) :=
  let title := dict_get bk "title" (JStr "N/A") in
  rbind (join ", " (dict_get bk "author_name" (JList [JStr "N/A"]))) (λ author_name,
  let first_publish_year := dict_get bk "first_publish_year" (JStr "N/A") in
  let publishers := dict_get bk "publisher" (JList [JStr "N/A"]) in
  rbind (if truthy publishers then index0 publishers else Return (JStr "N/A"))
        (λ first_publisher,
  let number_of_pages_median := dict_get bk "number_of_pages_median" (JStr "N/A") in
  Return [title; JStr author_name; first_publish_year; first_publisher;
          number_of_pages_median])).

Fixpoint parse_loop (data : list doc) (parsed_books : list (list jval))
  : result (list (list jval)) :=
  match data with
  | [] => Return parsed_books
  | bk :: rest => rbind (parse_row bk) (λ row, parse_loop rest (parsed_books ++ [row]))
  end.

Definition parse_books (data : list doc) : result (list (list jval)) :=
  match data with
  | [] => Return []
  | _ :: _ => parse_loop data []
  end.

(** ** main *)

(** How [main] ends: after the error "Failed to fetch data", after the
    error "Failed to parse data", or with the rows it builds the data
    frames from. *)
Inductive main_outcome : Type :=
  | FetchFailed
  | ParseFailed
  | Saved (books : list (list jval)).

Definition main (fuel : nat) (get : params → response)
  : option (result main_outcome) :=
  fetched ← fetch_books fuel get TITLE;
  Some (rbind fetched (λ '(data, _),
        match data with
        | [] => Return FetchFailed
        | _ :: _ =>
            rbind (parse_books data) (λ books,
            match books with
            | [] => Return ParseFailed
            | _ :: _ => Return (Saved books)
            end)
        end)).

(** ** Vocabulary of the properties *)

(** The records a response adds to [books_data]. *)
Definition page_docs (r : response) : list doc :=
  match r with
  | Body (Some docs) => docs
  | Body None | BadJson | Failed _ => []
  end.

(** A body with at least one record: the loop asks for the next page. *)
Definition nonempty_page (r : response) : Prop :=
  ∃ docs, r = Body (Some docs) ∧ docs ≠ [].

(** The response ends the loop without an exception. *)
Definition last_page (r : response) : Prop :=
  (∃ e, r = Failed e) ∨ r = BadJson ∨ r = Body (Some []).

(** [sep.join(v)] is defined: [v] is a [str], a list of [str] or a
    dictionary. *)
Definition joinable (v : jval) : bool :=
  match v with
  | JStr _ | JObj _ => true
  | JList l => forallb (λ x, match x with JStr _ => true | _ => false end) l
  | JNone | JBool _ | JInt _ | JFloat _ => false
  end.

(** [v[0] if v else 'N/A'] is defined: [v] is false, or a list or a
    [str]. *)
Definition headable (v : jval) : bool :=
  match v with
  | JList _ | JStr _ | JNone => true
  | JBool b => negb b
  | JInt z => (z =? 0)%Z
  | JFloat f => float_is_zero f
  | JObj items => match items with [] => true | _ :: _ => false end
  end.

(** The record can be parsed. *)
Definition row_ok (bk : doc) : bool :=
  joinable (dict_get bk "author_name" (JList [JStr "N/A"]))
  && headable (dict_get bk "publisher" (JList [JStr "N/A"])).

(** The exception a record makes the parser raise, if any: a
    [TypeError] when its [author_name] cannot be joined, or else when
    its [publisher] is a true [bool], [int] or [float]; a [KeyError] when its
    [author_name] can be joined and its [publisher] is a dictionary
    that is not empty. *)
Definition row_error (bk : doc) : option exn :=
  if joinable (dict_get bk "author_name" (JList [JStr "N/A"]))
  then match dict_get bk "publisher" (JList [JStr "N/A"]) with
       | JBool true => Some TypeError
       | JInt z => if (z =? 0)%Z then None else Some TypeError
       | JFloat f => if float_is_zero f then None else Some TypeError
       | JObj (_ :: _) => Some KeyError
       | JBool false | JNone | JStr _ | JList _ | JObj [] => None
       end
  else Some TypeError.

(** The exception of the first record that raises one. *)
Fixpoint first_error (data : list doc) : option exn :=
  match data with
  | [] => None
  | bk :: rest =>
      match row_error bk with
      | Some e => Some e
      | None => first_error rest
      end
  end.

(** ** Scenarios *)

Definition fellowship : doc :=
  {[ "title" := JStr "The Fellowship of the Ring";
     "author_name" := JList [JStr "J.R.R. Tolkien"; JStr "Alan Lee"];
     "first_publish_year" := JInt 1954;
     "publisher" := JList [JStr "Allen & Unwin"; JStr "Houghton Mifflin"] ]}.

(** A record with no field at all. *)
Definition bare : doc := ∅.

(** A record whose [author_name] is JSON null. *)
Definition no_authors : doc := {[ "title" := JStr "Untitled"; "author_name" := JNone ]}.

(** A record whose [publisher] is a JSON object. *)
Definition object_publisher : doc :=
  {[ "title" := JStr "Untitled"; "publisher" := JObj [("name", JStr "Allen & Unwin")] ]}.

(** Two pages of one record each, then an empty page. *)
Definition two_pages (p : params) : response :=
  match p_page p with
  | 1 => Body (Some [fellowship])
  | 2 => Body (Some [bare])
  | _ => Body (Some [])
  end.

(** One page, then a body without [docs]. *)
Definition page_then_no_docs (p : params) : response :=
  match p_page p with
  | 1 => Body (Some [fellowship])
  | _ => Body None
  end.

(** A source that always has one more record. *)
Definition endless (p : params) : response := Body (Some [bare]).

End Script1.

(** * Part III: properties *)

(** ** Parsing *)

Lemma parse_fold keyword data acc :
  fold_left (parse_step keyword) data acc = acc ++ omap (parse_one keyword) data.
Proof.
  revert acc. induction data as [|bk data IH]; intros acc; simpl.
  - by rewrite app_nil_r.
  - rewrite IH. unfold parse_step, parse_one.
    destruct (isinstance_int _); simpl; [by rewrite <- app_assoc | done].
Qed.

Lemma parse_omap data keyword :
  parse_book_titles_and_dates data keyword = omap (parse_one keyword) data.
Proof. unfold parse_book_titles_and_dates. by rewrite parse_fold. Qed.

Lemma parse_app d1 d2 keyword :
  parse_book_titles_and_dates (d1 ++ d2) keyword =
  parse_book_titles_and_dates d1 keyword ++ parse_book_titles_and_dates d2 keyword.
Proof. rewrite !parse_omap. apply omap_app. Qed.

Lemma parse_years_int data keyword :
  Forall (λ b, isinstance_int (e_year b) = true)
         (parse_book_titles_and_dates data keyword).
Proof.
  rewrite parse_omap. induction data as [|bk data IH]; simpl; [constructor|].
  unfold parse_one at 1. destruct (isinstance_int _) eqn:Hint; [|done].
  constructor; done.
Qed.

Lemma parse_one_Some keyword bk :
  isinstance_int (dict_get bk "first_publish_year" (PStr "N/A")) = true →
  parse_one keyword bk =
  Some (Entry (dict_get bk "title" (PStr "N/A"))
              (dict_get bk "first_publish_year" (PStr "N/A")) keyword).
Proof. intros Hint. unfold parse_one. by rewrite Hint. Qed.

Lemma parse_one_None keyword bk :
  isinstance_int (dict_get bk "first_publish_year" (PStr "N/A")) = false →
  parse_one keyword bk = None.
Proof. intros Hint. unfold parse_one. by rewrite Hint. Qed.

(** C10: every parsed entry has an integer year and the keyword it was
    parsed under, its title is the record's title, or ["N/A"] when the
    record has none, and the entries are those of the records with an
    integer year, in the order of the input. *)
Theorem parse_book_titles_and_dates_entries (data : list book) (keyword : string) :
  Forall (λ e, isinstance_int (e_year e) = true ∧ e_keyword e = keyword)
         (parse_book_titles_and_dates data keyword) ∧
  parse_book_titles_and_dates data keyword =
    (λ bk, Entry (match bk !! "title" with Some title => title | None => PStr "N/A" end)
                 (dict_get bk "first_publish_year" (PStr "N/A"))
                 keyword)
    <$> filter (λ bk, isinstance_int (dict_get bk "first_publish_year" (PStr "N/A")) = true)
               data.
Proof.
  rewrite parse_omap. induction data as [|bk data [IHall IHeq]].
  - split; [constructor | done].
  - cbn [omap list_omap]. rewrite filter_cons.
    destruct (isinstance_int (dict_get bk "first_publish_year" (PStr "N/A"))) eqn:Hint.
    + rewrite (parse_one_Some _ _ Hint), decide_True by done. split.
      * constructor; [split; [exact Hint | done] | done].
      * rewrite fmap_cons, <- IHeq. unfold dict_get. by destruct (bk !! "title").
    + rewrite (parse_one_None _ _ Hint), decide_False by congruence. done.
Qed.

(** C1, as stated, fails: a record whose year is not an integer gives
    no entry at all, so there is nothing to retain in the table. *)
Lemma entry_without_year_not_created :
  ¬ (∀ (bk : book) (keyword : string),
       isinstance_int (dict_get bk "first_publish_year" (PStr "N/A")) = false →
       ∃ e, e ∈ parse_book_titles_and_dates [bk] keyword ∧
            e_title e = dict_get bk "title" (PStr "N/A")).
Proof.
  intros Hclaim. destruct (Hclaim book_unknown "A" eq_refl) as (e & He & _).
  vm_compute in He. by apply elem_of_nil in He.
Qed.

(** C1 (amended): a record whose [first_publish_year] is missing or is
    not an integer is dropped by the parser: the parsed list, and the
    deduplicated list made from it, are those of the input without the
    record, and every entry that is parsed has an integer year. *)
Theorem parse_drops_records_without_int_year (before after : list book)
    (bk : book) (keyword : string) :
  (bk !! "first_publish_year" = None ∨
   ∃ v, bk !! "first_publish_year" = Some v ∧ isinstance_int v = false) →
  parse_book_titles_and_dates (before ++ bk :: after) keyword =
    parse_book_titles_and_dates (before ++ after) keyword ∧
  remove_duplicates (parse_book_titles_and_dates (before ++ bk :: after) keyword) =
    remove_duplicates (parse_book_titles_and_dates (before ++ after) keyword) ∧
  Forall valid_year (parse_book_titles_and_dates (before ++ bk :: after) keyword).
Proof.
  intros Hyear.
  assert (parse_book_titles_and_dates (before ++ bk :: after) keyword =
          parse_book_titles_and_dates (before ++ after) keyword) as Heq.
  { rewrite !parse_app. f_equal.
    change (bk :: after) with ([bk] ++ after). rewrite parse_app.
    rewrite (parse_omap [bk]). cbn [omap list_omap]. rewrite parse_one_None; [done|].
    unfold dict_get. destruct Hyear as [->|(v & -> & Hv)]; done. }
  split; [done|]. split; [by rewrite Heq | apply parse_years_int].
Qed.

Lemma parse_drops_records_without_int_year_witness :
  (book_unknown !! "first_publish_year" = None ∨
   ∃ v, book_unknown !! "first_publish_year" = Some v ∧ isinstance_int v = false) ∧
  parse_book_titles_and_dates ([book_X] ++ book_unknown :: [book_Y]) "A" =
    parse_book_titles_and_dates ([book_X] ++ [book_Y]) "A".
Proof.
  assert (book_unknown !! "first_publish_year" = None ∨
          ∃ v, book_unknown !! "first_publish_year" = Some v ∧ isinstance_int v = false)
    as Hyear by (right; exists (PStr "unknown"); split; reflexivity).
  split; [exact Hyear|].
  exact (proj1 (parse_drops_records_without_int_year [book_X] [book_Y]
                  book_unknown "A" Hyear)).
Defined.

(** ** Deduplication *)

Lemma identifier_py_eq a b :
  identifier a = identifier b ↔
  py_eq (e_title a) (e_title b) ∧ py_eq (e_year a) (e_year b).
Proof. unfold identifier, py_eq. split; [by intros [= -> ->] | by intros [-> ->]]. Qed.

Lemma dedup_fold books seen acc :
  snd (fold_left dedup_step books (seen, acc)) = acc ++ dedup_from seen books.
Proof.
  revert seen acc. induction books as [|b books IH]; intros seen acc; simpl.
  - by rewrite app_nil_r.
  - destruct (decide (identifier b ∈ seen)); [apply IH|].
    rewrite IH. by rewrite <- app_assoc.
Qed.

Lemma remove_duplicates_dedup_from books :
  remove_duplicates books = dedup_from ∅ books.
Proof. unfold remove_duplicates. by rewrite dedup_fold. Qed.

Lemma dedup_from_sublist seen books : dedup_from seen books `sublist_of` books.
Proof.
  revert seen. induction books as [|b books IH]; intros seen; simpl; [done|].
  destruct (decide _); [by apply sublist_cons | by apply sublist_skip].
Qed.

Lemma dedup_from_ids seen books k :
  k ∈ identifier <$> dedup_from seen books ↔ k ∈ identifier <$> books ∧ k ∉ seen.
Proof.
  revert seen. induction books as [|b books IH]; intros seen; cbn [dedup_from].
  - rewrite fmap_nil, elem_of_nil. tauto.
  - rewrite (fmap_cons identifier b books), elem_of_cons.
    destruct (decide (identifier b ∈ seen)) as [Hin|Hout].
    + rewrite IH. split; [tauto|].
      intros [[->|Hk] Hns]; [done | tauto].
    + rewrite fmap_cons, elem_of_cons, IH, elem_of_union, elem_of_singleton.
      split.
      * intros [->|[Hk Hns]]; tauto.
      * intros [[->|Hk] Hns]; [tauto|].
        destruct (decide (k = identifier b)); tauto.
Qed.

Lemma dedup_from_NoDup seen books : NoDup (identifier <$> dedup_from seen books).
Proof.
  revert seen. induction books as [|b books IH]; intros seen; cbn [dedup_from].
  - constructor.
  - destruct (decide _); [apply IH|].
    rewrite fmap_cons. constructor; [|apply IH].
    rewrite dedup_from_ids, elem_of_union, elem_of_singleton. tauto.
Qed.

(** A list without repeated identifiers, none of them seen, is kept whole. *)
Lemma dedup_from_fixed seen books :
  NoDup (identifier <$> books) →
  (∀ b, b ∈ books → identifier b ∉ seen) →
  dedup_from seen books = books.
Proof.
  revert seen.
  induction books as [|b books IH]; intros seen Hnd Hseen; cbn [dedup_from]; [done|].
  rewrite fmap_cons in Hnd. apply list.NoDup_cons in Hnd as [Hb Hnd].
  destruct (decide _) as [Hin|_].
  - exfalso. apply (Hseen b); [left | done].
  - f_equal. apply IH; [done|].
    intros b' Hb' [Heq%elem_of_singleton|Hin]%elem_of_union.
    + apply Hb. rewrite <- Heq. by apply list_elem_of_fmap_2.
    + apply (Hseen b'); [by right | done].
Qed.

Lemma first_with_cons k b books :
  first_with k (b :: books) =
  (if decide (identifier b = k) then Some (0, b)
   else prod_map S id <$> first_with k books).
Proof. reflexivity. Qed.

Lemma dedup_from_first seen books e :
  e ∈ dedup_from seen books ↔
  (identifier e ∉ seen) ∧ ∃ i, first_with (identifier e) books = Some (i, e).
Proof.
  revert seen. induction books as [|b books IH]; intros seen; cbn [dedup_from].
  - rewrite elem_of_nil. split; [done|]. by intros [_ [i ?]].
  - rewrite first_with_cons.
    destruct (decide (identifier b ∈ seen)) as [Hin|Hout].
    + rewrite IH. destruct (decide (identifier b = identifier e)) as [Heq|Hne].
      * rewrite <- Heq. tauto.
      * split; intros [Hns [i Hi]]; split; try done.
        -- exists (S i). by rewrite Hi.
        -- destruct (first_with _ books) as [[j x]|]; [|done].
           simpl in Hi. exists j. congruence.
    + rewrite elem_of_cons, IH, elem_of_union, elem_of_singleton.
      destruct (decide (identifier b = identifier e)) as [Heq|Hne].
      * split.
        -- intros [->|[Hns _]]; [|by destruct Hns; left].
           split; [done | by exists 0].
        -- intros [_ [i [= _ ->]]]. by left.
      * split.
        -- intros [->|[Hns [i Hi]]]; [done|].
           split; [tauto|]. exists (S i). by rewrite Hi.
        -- intros [Hns [i Hi]]. right. split; [intros [?|?]; congruence|].
           destruct (first_with _ books) as [[j x]|]; [|done].
           simpl in Hi. exists j. congruence.
Qed.

(** C3: the deduplicated table has no two entries with the same
    (title, year) identifier, it is a subsequence of the input (the
    first-seen order is kept), and its entries are exactly the first
    occurrences of their identifiers in the input. *)
Theorem remove_duplicates_first_occurrences (books : list entry) :
  NoDup (identifier <$> remove_duplicates books) ∧
  remove_duplicates books `sublist_of` books ∧
  (∀ e, e ∈ remove_duplicates books ↔
        ∃ i, first_with (identifier e) books = Some (i, e)).
Proof.
  rewrite remove_duplicates_dedup_from. split; [apply dedup_from_NoDup|].
  split; [apply dedup_from_sublist|].
  intros e. rewrite dedup_from_first. split; [tauto|].
  intros Hfirst. split; [apply not_elem_of_empty | done].
Qed.

Lemma remove_duplicates_idempotent books :
  remove_duplicates (remove_duplicates books) = remove_duplicates books.
Proof.
  rewrite !remove_duplicates_dedup_from. apply dedup_from_fixed.
  - apply dedup_from_NoDup.
  - intros b _. apply not_elem_of_empty.
Qed.

Lemma merge_fold completed acc :
  fold_left merge_step completed acc = acc ++ concat completed.
Proof.
  revert acc. induction completed as [|result completed IH]; intros acc; simpl.
  - by rewrite app_nil_r.
  - rewrite IH. destruct result; simpl; [done|]. by rewrite <- app_assoc.
Qed.

Lemma merge_completed_concat completed : merge_completed completed = concat completed.
Proof. unfold merge_completed. by rewrite merge_fold. Qed.

(** C7: feeding the aggregated table back through the merge and
    deduplication step returns it unchanged. *)
Theorem aggregate_idempotent (completed : list (list entry)) :
  aggregate [aggregate completed] = aggregate completed.
Proof.
  unfold aggregate at 1. rewrite merge_completed_concat. simpl.
  rewrite app_nil_r. unfold aggregate. apply remove_duplicates_idempotent.
Qed.

(** ** Counting by period *)

Lemma valid_year_int_value b : valid_year b ↔ is_Some (int_value (e_year b)).
Proof.
  unfold valid_year. destruct (e_year b); simpl; split;
    try done; try (intros [? [=]]); by eauto.
Qed.

Lemma first_period_cons periods start end_ year :
  first_period ((start, end_) :: periods) year =
  (if decide (in_period year (start, end_)) then Some (start, end_)
   else first_period periods year).
Proof.
  unfold first_period. cbn [list_find]. destruct (decide _); [done|].
  destruct (list_find (in_period year) periods) as [[i p]|]; reflexivity.
Qed.

Lemma first_period_elem_of periods year p :
  first_period periods year = Some p → p ∈ periods ∧ in_period year p.
Proof.
  unfold first_period. destruct (list_find _ periods) as [[i q]|] eqn:Hfind; [|done].
  intros [= <-]. apply list_find_Some in Hfind as (Hi & Hq & _).
  split; [by eapply list_elem_of_lookup_2 | done].
Qed.

Lemma first_period_None periods year :
  first_period periods year = None ↔ Forall (λ p, ¬ in_period year p) periods.
Proof.
  unfold first_period. rewrite <- list_find_None.
  by rewrite fmap_None.
Qed.

Lemma first_period_is_Some periods year :
  is_Some (first_period periods year) ↔ Exists (in_period year) periods.
Proof.
  induction periods as [|[start end_] periods IH].
  - rewrite List.Exists_nil. split; [by intros [? [=]] | done].
  - rewrite first_period_cons, List.Exists_cons.
    destruct (decide _) as [Hin|Hout]; [by split; eauto|].
    rewrite IH. tauto.
Qed.

Lemma covered_entry_period periods b :
  covered periods b ↔ is_Some (entry_period periods b).
Proof.
  unfold covered, entry_period. destruct (int_value (e_year b)) as [year|]; simpl.
  - rewrite first_period_is_Some. split; [by intros (? & [= <-] & Hex) | by eauto].
  - split; [by intros (? & [=] & _) | by intros [? [=]]].
Qed.

Lemma covered_valid_year periods b : covered periods b → valid_year b.
Proof. intros (year & Hyear & _). apply valid_year_int_value. eauto. Qed.

Lemma not_covered_no_periods b : ¬ covered [] b.
Proof. intros (year & _ & Hex). by apply List.Exists_nil in Hex. Qed.

Lemma chained_le_int start v end_ year :
  int_value v = Some year →
  chained_le start v end_ = Return (bool_decide (in_period year (start, end_))).
Proof.
  intros Hv. unfold chained_le, int_le_py, py_le_int, in_period. rewrite Hv. simpl.
  destruct (Z.leb_spec start year); simpl.
  - destruct (Z.leb_spec year end_).
    + by rewrite bool_decide_eq_true_2 by lia.
    + by rewrite bool_decide_eq_false_2 by lia.
  - by rewrite bool_decide_eq_false_2 by lia.
Qed.

Lemma chained_le_invalid start v end_ :
  int_value v = None → chained_le start v end_ = Raise TypeError.
Proof. intros Hv. unfold chained_le, int_le_py. by rewrite Hv. Qed.

(** The inner loop increments the count of the first containing period
    and of no other. *)
Lemma count_one_spec periods v year m :
  int_value v = Some year →
  (∀ p, p ∈ periods → is_Some (m !! p)) →
  count_one periods v m =
  Return (match first_period periods year with
          | Some p => alter S p m
          | None => m
          end).
Proof.
  intros Hv. induction periods as [|[start end_] periods IH]; intros Hdom.
  - done.
  - cbn [count_one]. rewrite (chained_le_int _ _ _ _ Hv), first_period_cons. simpl.
    destruct (decide (in_period year (start, end_))) as [Hin|Hout].
    + rewrite bool_decide_eq_true_2 by done.
      destruct (Hdom (start, end_)) as [c Hc]; [left|]. rewrite Hc. f_equal.
      apply map_eq. intros q. rewrite lookup_alter, lookup_insert.
      destruct (decide _) as [<-|]; [by rewrite Hc | done].
    + rewrite bool_decide_eq_false_2 by done.
      apply IH. intros p Hp. apply Hdom. by right.
Qed.

Lemma count_one_invalid period periods v m :
  int_value v = None → count_one (period :: periods) v m = Raise TypeError.
Proof.
  intros Hv. destruct period as [start end_]. cbn [count_one].
  by rewrite chained_le_invalid.
Qed.

Lemma total_count_alter m p c :
  m !! p = Some c → total_count (alter S p m) = S (total_count m).
Proof.
  intros Hc. unfold total_count.
  assert (alter S p m = <[p := S c]> (delete p m)) as ->.
  { apply map_eq. intros q. rewrite lookup_alter, lookup_insert.
    destruct (decide _) as [<-|]; [by rewrite Hc|]. by rewrite lookup_delete_ne. }
  rewrite map_to_list_insert by apply lookup_delete_eq.
  rewrite <- (map_to_list_delete m p c Hc). done.
Qed.

Lemma total_count_zero (m : gmap (Z * Z) nat) :
  (∀ p c, m !! p = Some c → c = 0) → total_count m = 0.
Proof.
  intros Hz. unfold total_count.
  assert (Forall (λ pc, pc.2 = 0) (map_to_list m)) as Hall.
  { apply list.Forall_forall. intros [p c] Hpc. apply elem_of_map_to_list in Hpc. eauto. }
  induction Hall as [|pc l Hpc _ IH]; [done|]. simpl. by rewrite Hpc, IH.
Qed.

Lemma count_all_spec periods books m :
  Forall valid_year books →
  (∀ p, p ∈ periods → is_Some (m !! p)) →
  ∃ m', count_all periods books m = Return m' ∧
        (∀ p, m' !! p = (λ c, c + hits periods p books) <$> m !! p) ∧
        total_count m' = total_count m + length (filter (covered periods) books).
Proof.
  intros Hvalid. revert m.
  induction Hvalid as [|b books Hb _ IH]; intros m Hdom.
  - exists m. split; [done|]. split; [|by rewrite Nat.add_0_r].
    intros p. unfold hits. simpl. destruct (m !! p); simpl; f_equal; lia.
  - apply valid_year_int_value in Hb as [year Hyear].
    cbn [count_all]. rewrite (count_one_spec _ _ _ _ Hyear Hdom). simpl.
    assert (entry_period periods b = first_period periods year) as Hep.
    { unfold entry_period. by rewrite Hyear. }
    destruct (first_period periods year) as [q|] eqn:Hq.
    + destruct (first_period_elem_of _ _ _ Hq) as [Hqin _].
      destruct (Hdom q Hqin) as [c Hc].
      destruct (IH (alter S q m)) as (m' & Hrun & Hlook & Htot).
      { intros p Hp. apply lookup_alter_is_Some. by apply Hdom. }
      exists m'. split; [done|]. split.
      * intros p. rewrite Hlook, lookup_alter. unfold hits.
        rewrite filter_cons, Hep. destruct (decide (q = p)) as [<-|Hne].
        -- rewrite decide_True by done. rewrite Hc. simpl. f_equal. lia.
        -- rewrite decide_False by congruence. done.
      * rewrite Htot, (total_count_alter _ _ _ Hc), filter_cons.
        rewrite decide_True; [simpl; lia|].
        apply covered_entry_period. by rewrite Hep.
    + destruct (IH m Hdom) as (m' & Hrun & Hlook & Htot).
      exists m'. split; [done|]. split.
      * intros p. rewrite Hlook. unfold hits.
        rewrite filter_cons, Hep. by rewrite decide_False by done.
      * rewrite Htot, filter_cons. rewrite decide_False; [done|].
        rewrite covered_entry_period, Hep. by intros [? [=]].
Qed.

Lemma count_all_Return_valid period periods books m m' :
  count_all (period :: periods) books m = Return m' → Forall valid_year books.
Proof.
  revert m. induction books as [|b books IH]; intros m Hrun; [constructor|].
  cbn [count_all] in Hrun.
  destruct (int_value (e_year b)) as [year|] eqn:Hyear.
  - constructor; [apply valid_year_int_value; eauto|].
    destruct (count_one _ _ m) as [m1|]; [|done]. by eapply IH.
  - by rewrite count_one_invalid in Hrun.
Qed.

Lemma count_all_no_periods books m : count_all [] books m = Return m.
Proof. induction books as [|b books IH]; [done|]. apply IH. Qed.

(** The dictionary comprehension [{period: 0 for period in periods}]. *)
Lemma initial_counts_lookup (periods : list (Z * Z)) p :
  (list_to_map ((λ period, (period, 0)) <$> periods) : gmap (Z * Z) nat) !! p =
  if decide (p ∈ periods) then Some 0 else None.
Proof.
  destruct (decide (p ∈ periods)) as [Hin|Hout].
  - induction periods as [|q periods IH]; [by apply elem_of_nil in Hin|].
    rewrite fmap_cons, list_to_map_cons. destruct (decide (q = p)) as [->|Hne].
    + by rewrite lookup_insert_eq.
    + rewrite lookup_insert_ne by done. apply IH.
      apply elem_of_cons in Hin as [?|?]; [congruence | done].
  - apply not_elem_of_list_to_map_1. rewrite <- list_fmap_compose.
    intros Hin. apply Hout. apply list_elem_of_fmap in Hin as (q & -> & Hq). done.
Qed.

Lemma initial_counts_is_Some (periods : list (Z * Z)) p :
  p ∈ periods →
  is_Some ((list_to_map ((λ period, (period, 0)) <$> periods) : gmap (Z * Z) nat) !! p).
Proof. intros Hp. rewrite initial_counts_lookup, decide_True by done. eauto. Qed.

Lemma filter_length_le {A} (P Q : A → Prop)
    `{∀ x, Decision (P x)} `{∀ x, Decision (Q x)} (l : list A) :
  (∀ x, P x → Q x) →
  length (filter P l) ≤ length (filter Q l) ∧
  (length (filter P l) = length (filter Q l) ↔ Forall (λ x, Q x → P x) l).
Proof.
  intros HPQ. induction l as [|x l [IHle IHeq]].
  - split; [done|]. split; [constructor | done].
  - rewrite !filter_cons, list.Forall_cons.
    destruct (decide (P x)) as [HP|HnP].
    + rewrite decide_True by auto. simpl. split; [lia|].
      rewrite <- IHeq. split; [intros; split; [done | lia] | intros [_ ?]; lia].
    + destruct (decide (Q x)) as [HQ|HnQ]; simpl.
      * split; [lia|]. split; [lia | tauto].
      * split; [done|]. rewrite IHeq. tauto.
Qed.

Lemma count_books_by_period_in_returns periods books :
  Forall valid_year books →
  ∃ counts, count_books_by_period_in periods books = Return counts.
Proof.
  intros Hvalid. unfold count_books_by_period_in.
  destruct (count_all_spec periods books _ Hvalid (initial_counts_is_Some periods))
    as (m' & Hrun & _).
  eauto.
Qed.

(** C6: for one entry the inner loop adds one to the count of the first
    period, in list order, that contains its year, and changes no other
    count.  On a table whose years are all integers
    [count_books_by_period] returns, and whenever it returns, the count
    of a period is the number of entries whose first containing period
    it is; the sum of the counts is the number of entries with a year
    inside some period, which is at most the number of entries with a
    valid year and equals it exactly when every valid year lies inside
    some period. *)
Theorem count_books_by_period_total (periods : list (Z * Z)) (books : list entry) :
  (∀ b year period_counts,
     int_value (e_year b) = Some year →
     (∀ p, p ∈ periods → is_Some (period_counts !! p)) →
     count_one periods (e_year b) period_counts =
     Return (match first_period periods year with
             | Some p => alter S p period_counts
             | None => period_counts
             end)) ∧
  (Forall valid_year books →
   ∃ counts, count_books_by_period_in periods books = Return counts) ∧
  (∀ counts, count_books_by_period_in periods books = Return counts →
     (∀ p, counts !! p =
           if decide (p ∈ periods) then Some (hits periods p books) else None) ∧
     total_count counts = length (filter (covered periods) books) ∧
     total_count counts ≤ length (filter valid_year books) ∧
     (total_count counts = length (filter valid_year books) ↔
      Forall (λ b, valid_year b → covered periods b) books)).
Proof.
  split; [intros b year period_counts; apply count_one_spec|].
  unfold count_books_by_period_in.
  set (init := list_to_map ((λ period, (period, 0)) <$> periods) : gmap (Z * Z) nat).
  assert (∀ p, p ∈ periods → is_Some (init !! p)) as Hdom
    by apply initial_counts_is_Some.
  assert (total_count init = 0) as Hzero.
  { apply total_count_zero. intros p c. unfold init. rewrite initial_counts_lookup.
    destruct (decide _); congruence. }
  split; [apply count_books_by_period_in_returns|].
  intros counts Hrun.
  assert ((∀ p, counts !! p =
             if decide (p ∈ periods) then Some (hits periods p books) else None) ∧
          total_count counts = length (filter (covered periods) books))
    as [Hlook Htot].
  { destruct periods as [|period periods].
    - rewrite count_all_no_periods in Hrun. injection Hrun as <-. split.
      + intros p. unfold init. rewrite initial_counts_lookup.
        rewrite decide_False; [done | apply not_elem_of_nil].
      + rewrite Hzero. symmetry. apply length_zero_iff_nil.
        induction books as [|b books IH]; [done|].
        rewrite filter_cons, decide_False; [done | apply not_covered_no_periods].
    - pose proof (count_all_Return_valid _ _ _ _ _ Hrun) as Hvalid.
      destruct (count_all_spec _ books init Hvalid Hdom) as (m' & Hrun' & Hlook & Htot).
      rewrite Hrun in Hrun'. injection Hrun' as <-. split.
      + intros p. rewrite Hlook. unfold init. rewrite initial_counts_lookup.
        by destruct (decide _).
      + by rewrite Htot, Hzero. }
  split; [done|]. split; [done|]. rewrite Htot.
  apply (filter_length_le (covered periods) valid_year books).
  apply covered_valid_year.
Qed.

Lemma count_books_by_period_total_witness :
  Forall valid_year sample_table ∧
  ∃ counts, count_books_by_period_in TIME_PERIODS sample_table = Return counts ∧
            total_count counts = 2 ∧
            counts !! (2004, 2005)%Z = Some 1 ∧ counts !! (2010, 2011)%Z = Some 1.
Proof.
  assert (Forall valid_year sample_table) as Hvalid by (repeat constructor).
  split; [exact Hvalid|].
  destruct (count_books_by_period_total TIME_PERIODS sample_table)
    as (_ & Hret & Hspec).
  destruct (Hret Hvalid) as [counts Hrun]. exists counts. split; [exact Hrun|].
  destruct (Hspec counts Hrun) as (Hlook & Htot & _).
  split; [by rewrite Htot|]. by rewrite !Hlook.
Defined.

(** ** Pagination *)

Section pagination.

(** The source [requests.get] stands for. *)
Context (get : params → response).

Lemma fetch_iter_failed st :
  get (fs_params st) = RequestException →
  fetch_iter get st =
  Break (FetchState (fs_params st) (fs_all_books st) (fs_requests st ++ [fs_params st])).
Proof. intros Hget. unfold fetch_iter. by rewrite Hget. Qed.

Lemma fetch_iter_full st docs :
  get (fs_params st) = Json (Some docs) →
  docs ≠ [] →
  p_limit (fs_params st) ≤ length docs →
  fetch_iter get st =
  Continue (FetchState (next_page (fs_params st)) (fs_all_books st ++ docs)
                       (fs_requests st ++ [fs_params st])).
Proof.
  intros Hget Hne Hlen. unfold fetch_iter. rewrite Hget.
  destruct docs as [|bk docs]; [done|].
  destruct (Nat.ltb_spec (length (bk :: docs)) (p_limit (fs_params st))); [lia | done].
Qed.

Lemma fetch_iter_short st docs :
  get (fs_params st) = Json (Some docs) →
  length docs < p_limit (fs_params st) →
  fetch_iter get st =
  Break (FetchState (fs_params st) (fs_all_books st ++ docs)
                    (fs_requests st ++ [fs_params st])).
Proof.
  intros Hget Hlen. unfold fetch_iter. rewrite Hget.
  destruct docs as [|bk docs]; [by rewrite app_nil_r|].
  destruct (Nat.ltb_spec (length (bk :: docs)) (p_limit (fs_params st))); [done | lia].
Qed.

(** The loop goes on to the next page exactly when the body has a
    non-empty [docs] that is not shorter than the limit. *)
Lemma fetch_iter_continues st :
  (∃ st', fetch_iter get st = Continue st') ↔
  ∃ docs, get (fs_params st) = Json (Some docs) ∧ docs ≠ [] ∧
          p_limit (fs_params st) ≤ length docs.
Proof.
  split.
  - intros [st' Hiter]. unfold fetch_iter in Hiter.
    destruct (get (fs_params st)) as [|[[|bk docs]|]] eqn:Hget; try done.
    destruct (Nat.ltb_spec (length (bk :: docs)) (p_limit (fs_params st)));
      [done|]. exists (bk :: docs). done.
  - intros (docs & Hget & Hne & Hlen). rewrite (fetch_iter_full _ _ Hget Hne Hlen).
    eauto.
Qed.

Lemma fetch_loop_S fuel st :
  fetch_loop (S fuel) get st =
  match fetch_iter get st with
  | Break st' => Some st'
  | Continue st' => fetch_loop fuel get st'
  end.
Proof. reflexivity. Qed.

(** More iterations do not change the outcome of a loop that has ended. *)
Lemma fetch_loop_more fuel fuel' st st' :
  fetch_loop fuel get st = Some st' → fuel ≤ fuel' →
  fetch_loop fuel' get st = Some st'.
Proof.
  revert fuel' st. induction fuel as [|fuel IH]; intros fuel' st Hrun Hle; [done|].
  destruct fuel' as [|fuel']; [lia|]. rewrite fetch_loop_S in *.
  destruct (fetch_iter get st); [|done]. apply IH; [done | lia].
Qed.

(** A run of full pages: the loop walks through all of them. *)
Lemma fetch_loop_full_pages keyword limit (pages : list (list book)) fuel :
  ∀ start all_books issued,
  (∀ i docs, pages !! i = Some docs →
             get (Params keyword limit (start + i)) = Json (Some docs) ∧
             docs ≠ [] ∧ limit ≤ length docs) →
  fetch_loop (length pages + fuel) get
             (FetchState (Params keyword limit start) all_books issued) =
  fetch_loop fuel get
             (FetchState (Params keyword limit (start + length pages))
                         (all_books ++ concat pages)
                         (issued ++ (Params keyword limit <$> seq start (length pages)))).
Proof.
  induction pages as [|docs pages IH]; intros start all_books issued Hpages.
  - simpl. by rewrite Nat.add_0_r, !app_nil_r.
  - destruct (Hpages 0 docs eq_refl) as (Hget & Hne & Hlen).
    rewrite Nat.add_0_r in Hget.
    cbn [length Nat.add]. rewrite fetch_loop_S.
    rewrite (fetch_iter_full _ docs); [|done..].
    unfold next_page. cbn [fs_params fs_all_books fs_requests p_title p_limit p_page].
    rewrite IH.
    + cbn [concat seq fmap list_fmap]. rewrite <- !app_assoc. cbn [app].
      by replace (start + 1 + length pages) with (start + S (length pages)) by lia;
         replace (start + 1) with (S start) by lia.
    + intros i docs' Hi. specialize (Hpages (S i) docs' Hi).
      by replace (start + 1 + i) with (start + S i) by lia.
Qed.

Lemma fetch_iter_requests st :
  ∀ st', fetch_iter get st = Break st' ∨ fetch_iter get st = Continue st' →
         fs_requests st' = fs_requests st ++ [fs_params st].
Proof.
  intros st'. unfold fetch_iter.
  destruct (get (fs_params st)) as [|[[|bk docs]|]];
    try (intros [[= <-]|[=]]; done).
  destruct (_ <? _); intros [[= <-]|[= <-]]; done.
Qed.

Lemma fetch_loop_requests fuel st st' x :
  fetch_loop fuel get st = Some st' →
  x ∈ fs_requests st ++ [fs_params st] → x ∈ fs_requests st'.
Proof.
  revert st. induction fuel as [|fuel IH]; intros st Hrun Hx; [done|].
  rewrite fetch_loop_S in Hrun.
  destruct (fetch_iter get st) as [st1|st1] eqn:Hiter.
  - apply (IH st1 Hrun). apply elem_of_app. left.
    by rewrite (fetch_iter_requests st st1) by auto.
  - injection Hrun as <-. by rewrite (fetch_iter_requests st st1) by auto.
Qed.

Lemma process_keyword_fetch fuel keyword :
  process_keyword fuel get keyword =
  '(books_data, issued) ← fetch_books fuel get keyword;
  Some (remove_duplicates (parse_book_titles_and_dates books_data keyword), issued).
Proof.
  unfold process_keyword. destruct (fetch_books fuel get keyword) as [[books issued]|];
    [|done]. simpl. by destruct books.
Qed.

Lemma process_keyword_first_request fuel keyword entries issued :
  process_keyword fuel get keyword = Some (entries, issued) →
  Params keyword 1000 1 ∈ issued.
Proof.
  rewrite process_keyword_fetch. unfold fetch_books.
  destruct (fetch_loop fuel get (fetch_init keyword)) as [st|] eqn:Hloop; [|done].
  simpl. intros [= _ <-]. apply (fetch_loop_requests _ _ _ _ Hloop).
  apply elem_of_app. right. left.
Qed.

(** Full pages followed by a failed request: [fetch_books] returns the
    pages accumulated before the failure. *)
Lemma fetch_books_truncated keyword (pages : list (list book)) fuel :
  (∀ i docs, pages !! i = Some docs →
             get (Params keyword 1000 (1 + i)) = Json (Some docs) ∧
             1000 ≤ length docs) →
  get (Params keyword 1000 (1 + length pages)) = RequestException →
  length pages < fuel →
  fetch_books fuel get keyword =
  Some (concat pages, Params keyword 1000 <$> seq 1 (S (length pages))).
Proof.
  intros Hpages Hfail Hfuel. unfold fetch_books, fetch_init.
  rewrite seq_S, fmap_app.
  replace fuel with (length pages + S (fuel - S (length pages))) by lia.
  rewrite fetch_loop_full_pages.
  - rewrite fetch_loop_S, fetch_iter_failed by done. reflexivity.
  - intros i docs Hi. destruct (Hpages i docs Hi) as [Hget Hlen].
    split; [done|]. split; [|done]. intros ->. simpl in Hlen. lia.
Qed.

(** C4 (amended): with the limit of 1000 the loop goes on to the next
    page exactly when the page holds at least 1000 records, the limit
    is the same on every page, and with pages of 1000, 1000 and 400
    records [fetch_books] issues the requests for pages 1, 2 and 3 and
    no other, and returns the 2400 records. *)
Theorem fetch_books_pagination :
  (∀ st, p_limit (fs_params st) = 1000 →
     ((∃ st', fetch_iter get st = Continue st') ↔
      ∃ docs, get (fs_params st) = Json (Some docs) ∧ 1000 ≤ length docs)) ∧
  (∀ st st', fetch_iter get st = Continue st' →
     p_limit (fs_params st') = p_limit (fs_params st) ∧
     p_page (fs_params st') = p_page (fs_params st) + 1) ∧
  (∀ keyword d1 d2 d3 fuel,
     get (Params keyword 1000 1) = Json (Some d1) → length d1 = 1000 →
     get (Params keyword 1000 2) = Json (Some d2) → length d2 = 1000 →
     get (Params keyword 1000 3) = Json (Some d3) → length d3 = 400 →
     3 ≤ fuel →
     fetch_books fuel get keyword =
       Some (d1 ++ d2 ++ d3,
             [Params keyword 1000 1; Params keyword 1000 2; Params keyword 1000 3]) ∧
     length (d1 ++ d2 ++ d3) = 2400).
Proof.
  split; [|split].
  - intros st Hlimit. rewrite fetch_iter_continues, Hlimit.
    split; intros (docs & Hget & Hrest); exists docs; (split; [done|]).
    + tauto.
    + split; [|done]. intros ->. simpl in Hrest. lia.
  - intros st st' Hiter. unfold fetch_iter in Hiter.
    destruct (get (fs_params st)) as [|[[|bk docs]|]]; try done.
    destruct (_ <? _); [done|]. by injection Hiter as <-.
  - intros keyword d1 d2 d3 fuel Hg1 Hl1 Hg2 Hl2 Hg3 Hl3 Hfuel.
    split; [|rewrite !length_app; lia].
    unfold fetch_books, fetch_init.
    replace fuel with (length [d1; d2] + S (fuel - 3)) by (simpl; lia).
    rewrite fetch_loop_full_pages.
    + rewrite fetch_loop_S.
      rewrite (fetch_iter_short _ d3);
        [|done | cbn [fs_params p_limit]; lia].
      cbn [mbind option_bind fs_all_books fs_requests concat app length seq
           fmap list_fmap Nat.add]. by rewrite app_nil_r, <- app_assoc.
    + intros [|[|i]] docs Hi; [| |done]; injection Hi as <-.
      * split; [done|]. split; [intros ->; simpl in Hl1|]; lia.
      * split; [done|]. split; [intros ->; simpl in Hl2|]; lia.
Qed.

(** C5: when the request for a page fails after a run of full pages,
    [process_keyword] returns normally with the deduplicated entries of
    the pages fetched before the failure; in particular with a first
    page of 1000 records and a failing second request it returns the
    deduplicated entries of the first page. *)
Theorem process_keyword_truncates_on_failure (keyword : string) :
  (∀ d1 fuel,
     get (Params keyword 1000 1) = Json (Some d1) → length d1 = 1000 →
     get (Params keyword 1000 2) = RequestException →
     2 ≤ fuel →
     process_keyword fuel get keyword =
     Some (remove_duplicates (parse_book_titles_and_dates d1 keyword),
           [Params keyword 1000 1; Params keyword 1000 2])) ∧
  (∀ pages fuel,
     (∀ i docs, pages !! i = Some docs →
                get (Params keyword 1000 (1 + i)) = Json (Some docs) ∧
                1000 ≤ length docs) →
     get (Params keyword 1000 (1 + length pages)) = RequestException →
     length pages < fuel →
     fetch_books fuel get keyword =
       Some (concat pages, Params keyword 1000 <$> seq 1 (S (length pages))) ∧
     process_keyword fuel get keyword =
       Some (remove_duplicates (parse_book_titles_and_dates (concat pages) keyword),
             Params keyword 1000 <$> seq 1 (S (length pages)))).
Proof.
  assert (∀ pages fuel,
     (∀ i docs, pages !! i = Some docs →
                get (Params keyword 1000 (1 + i)) = Json (Some docs) ∧
                1000 ≤ length docs) →
     get (Params keyword 1000 (1 + length pages)) = RequestException →
     length pages < fuel →
     fetch_books fuel get keyword =
       Some (concat pages, Params keyword 1000 <$> seq 1 (S (length pages))) ∧
     process_keyword fuel get keyword =
       Some (remove_duplicates (parse_book_titles_and_dates (concat pages) keyword),
             Params keyword 1000 <$> seq 1 (S (length pages)))) as Hgeneral.
  { intros pages fuel Hpages Hfail Hfuel.
    pose proof (fetch_books_truncated _ _ _ Hpages Hfail Hfuel) as Hfetch.
    split; [done|]. by rewrite process_keyword_fetch, Hfetch. }
  split; [|exact Hgeneral].
  intros d1 fuel Hget Hlen Hfail Hfuel.
  destruct (Hgeneral [d1] fuel) as [_ Hproc].
  - intros [|i] docs Hi; [|done]. injection Hi as <-. split; [done | lia].
  - done.
  - simpl. lia.
  - rewrite Hproc. simpl. by rewrite app_nil_r.
Qed.

End pagination.

(** C4, as stated, fails: a page of 1001 records is not of the page
    size, and the loop goes on to the next page all the same. *)
Lemma fetch_iter_continue_iff_equal_refuted :
  ¬ (∀ (get : params → response) (st : fetch_state),
       p_limit (fs_params st) = 1000 →
       ((∃ st', fetch_iter get st = Continue st') ↔
        ∃ docs, get (fs_params st) = Json (Some docs) ∧ length docs = 1000)).
Proof.
  intros Hclaim.
  destruct (Hclaim oversize_get (fetch_init "A") eq_refl) as [Hcont _].
  destruct Hcont as (docs & Hget & Hlen).
  - apply fetch_iter_continues. exists (replicate 1001 (∅ : book)).
    split; [reflexivity|]. split; [done|]. rewrite length_replicate.
    cbn [fetch_init fs_params p_limit]. lia.
  - change (Json (Some (replicate 1001 (∅ : book))) = Json (Some docs)) in Hget.
    assert (docs = replicate 1001 (∅ : book)) as -> by congruence.
    rewrite length_replicate in Hlen. lia.
Qed.

Lemma fetch_books_pagination_witness :
  decreasing_get (Params "A" 1000 1) = Json (Some (replicate 1000 ∅)) ∧
  decreasing_get (Params "A" 1000 2) = Json (Some (replicate 1000 ∅)) ∧
  decreasing_get (Params "A" 1000 3) = Json (Some (replicate 400 ∅)) ∧
  decreasing_get (Params "A" 1000 4) = Json (Some []) ∧
  fetch_books 5 decreasing_get "A" =
    Some (replicate 1000 ∅ ++ replicate 1000 ∅ ++ replicate 400 ∅,
          [Params "A" 1000 1; Params "A" 1000 2; Params "A" 1000 3]) ∧
  length (replicate 1000 (∅ : book) ++ replicate 1000 ∅ ++ replicate 400 ∅) = 2400.
Proof.
  do 4 (split; [reflexivity|]).
  apply (proj2 (proj2 (fetch_books_pagination decreasing_get))
               "A" (replicate 1000 ∅) (replicate 1000 ∅) (replicate 400 ∅) 5);
    first [reflexivity | apply length_replicate | lia].
Defined.

Lemma process_keyword_truncates_on_failure_witness :
  failing_get (Params "A" 1000 1) =
    Json (Some (replicate 1000 ({[ "title" := PStr "X";
                                   "first_publish_year" := PInt 2005 ]} : book))) ∧
  failing_get (Params "A" 1000 2) = RequestException ∧
  process_keyword 2 failing_get "A" =
    Some ([Entry (PStr "X") (PInt 2005) "A"],
          [Params "A" 1000 1; Params "A" 1000 2]).
Proof.
  split; [reflexivity|]. split; [reflexivity|].
  rewrite (proj1 (process_keyword_truncates_on_failure failing_get "A")
                 (replicate 1000 ({[ "title" := PStr "X";
                                     "first_publish_year" := PInt 2005 ]} : book)) 2
                 eq_refl (length_replicate _ _) eq_refl (le_n 2)).
  vm_compute. reflexivity.
Defined.

(** ** The whole run *)

Lemma concat_Permutation {A} (ls ls' : list (list A)) :
  ls ≡ₚ ls' → concat ls ≡ₚ concat ls'.
Proof.
  induction 1 as [|l ls ls' _ IH|l1 l2 ls|ls1 ls2 ls3 _ IH1 _ IH2]; simpl.
  - done.
  - by rewrite IH.
  - apply Permutation_app_swap_app.
  - by rewrite IH1.
Qed.

Lemma mapM_Permutation {A B} (f : A → option B) (l l' : list A) (k : list B) :
  l ≡ₚ l' → mapM f l = Some k → ∃ k', mapM f l' = Some k' ∧ k ≡ₚ k'.
Proof.
  intros Hperm Hk. apply mapM_Some in Hk.
  destruct (Permutation_Forall2 Hperm Hk) as (k' & Hkk' & Hk').
  exists k'. split; [by apply mapM_Some | done].
Qed.

(** Merging the same partial results in another order gives a table
    with the same identifiers. *)
Lemma aggregate_identifiers_Permutation completed completed' :
  completed ≡ₚ completed' →
  identifier <$> aggregate completed ≡ₚ identifier <$> aggregate completed'.
Proof.
  intros Hperm. unfold aggregate. rewrite !merge_completed_concat.
  rewrite !remove_duplicates_dedup_from.
  apply NoDup_Permutation; [apply dedup_from_NoDup..|].
  intros k. rewrite !dedup_from_ids.
  by rewrite (concat_Permutation _ _ Hperm).
Qed.

Lemma remove_duplicates_valid books :
  Forall valid_year books → Forall valid_year (remove_duplicates books).
Proof.
  rewrite !list.Forall_forall. intros Hall b Hb. apply Hall.
  eapply elem_of_sublist; [done|].
  rewrite remove_duplicates_dedup_from. apply dedup_from_sublist.
Qed.

Lemma process_keyword_valid fuel get keyword entries issued :
  process_keyword fuel get keyword = Some (entries, issued) →
  Forall valid_year entries.
Proof.
  rewrite process_keyword_fetch.
  destruct (fetch_books fuel get keyword) as [[books issued']|]; [|done].
  simpl. intros [= <- _]. apply remove_duplicates_valid, parse_years_int.
Qed.

Lemma aggregate_valid completed :
  Forall (Forall valid_year) completed → Forall valid_year (aggregate completed).
Proof.
  intros Hall. unfold aggregate. rewrite merge_completed_concat.
  by apply remove_duplicates_valid, Forall_concat.
Qed.

Lemma mapM_process_keyword_valid fuel get completion finished :
  mapM (process_keyword fuel get) completion = Some finished →
  Forall (Forall valid_year) (fst <$> finished).
Proof.
  intros Hrun. apply mapM_Some in Hrun.
  induction Hrun as [|keyword [entries issued] completion finished Hk _ IH]; simpl.
  - constructor.
  - constructor; [by eapply process_keyword_valid | done].
Qed.

(** The part of [main] that [main_in] covers, up to the call of
    [count_books_by_period], raises nothing: it returns or is still
    running. *)
Lemma main_in_returns periods fuel get completion r :
  main_in periods fuel get completion = Some r →
  ∃ finished counts,
    mapM (process_keyword fuel get) completion = Some finished ∧
    count_books_by_period_in periods (aggregate (fst <$> finished)) = Return counts ∧
    r = Return (RunOutput (aggregate (fst <$> finished)) counts
                          (concat (snd <$> finished))).
Proof.
  unfold main_in.
  destruct (mapM (process_keyword fuel get) completion) as [finished|] eqn:Hrun;
    [|done].
  simpl. intros [= <-].
  destruct (count_books_by_period_in_returns periods (aggregate (fst <$> finished)))
    as [counts Hcounts].
  { by eapply aggregate_valid, mapM_process_keyword_valid. }
  exists finished, counts. by rewrite Hcounts.
Qed.

(** C9: on the two-keyword scenario, in either completion order, the
    aggregated table has exactly the two entries X/2005 and Y/2010, and
    with the periods (2004, 2005) and (2006, 2011) each period counts
    one entry. *)
Theorem end_to_end_example (fuel : nat) :
  main_in example_periods (S fuel) mock_get ["A"; "B"] =
    Some (Return (RunOutput
      [Entry (PStr "X") (PInt 2005) "A"; Entry (PStr "Y") (PInt 2010) "B"]
      {[ (2004, 2005)%Z := 1; (2006, 2011)%Z := 1 ]}
      [Params "A" 1000 1; Params "B" 1000 1])) ∧
  main_in example_periods (S fuel) mock_get ["B"; "A"] =
    Some (Return (RunOutput
      [Entry (PStr "X") (PInt 2005) "B"; Entry (PStr "Y") (PInt 2010) "B"]
      {[ (2004, 2005)%Z := 1; (2006, 2011)%Z := 1 ]}
      [Params "B" 1000 1; Params "A" 1000 1])).
Proof. split; vm_compute; reflexivity. Qed.

Lemma example_run_A_then_B :
  main_in example_periods 1 mock_get ["A"; "B"] =
    Some (Return (RunOutput
      [Entry (PStr "X") (PInt 2005) "A"; Entry (PStr "Y") (PInt 2010) "B"]
      {[ (2004, 2005)%Z := 1; (2006, 2011)%Z := 1 ]}
      [Params "A" 1000 1; Params "B" 1000 1])).
Proof. vm_compute. reflexivity. Qed.

(** C2, as stated, fails: the two completion orders of the scenario
    give tables that differ in the keyword of the entry X/2005, so they
    are not the same multiset of entries. *)
Lemma aggregate_order_dependent :
  ["A"; "B"] ≡ₚ ["B"; "A"] ∧
  ∃ out out',
    main_in example_periods 1 mock_get ["A"; "B"] = Some (Return out) ∧
    main_in example_periods 1 mock_get ["B"; "A"] = Some (Return out') ∧
    ¬ aggregated_data out ≡ₚ aggregated_data out'.
Proof.
  split; [apply Permutation_swap|].
  eexists _, _. split; [vm_compute; reflexivity|]. split; [vm_compute; reflexivity|].
  cbn [aggregated_data]. intros Hperm.
  assert (Entry (PStr "X") (PInt 2005) "A" ∈
          [Entry (PStr "X") (PInt 2005) "B"; Entry (PStr "Y") (PInt 2010) "B"]) as Hin.
  { rewrite <- Hperm. left. }
  rewrite !elem_of_cons, elem_of_nil in Hin. by destruct Hin as [|[|]].
Qed.

(** C2 (amended): whatever the order in which the workers complete, a
    run that returns in one order returns in the other, and the two
    tables have the same (title, year) identifiers. *)
Theorem main_identifiers_order_invariant (periods : list (Z * Z)) (fuel : nat)
    (get : params → response) (completion completion' : list string)
    (out : run_output) :
  completion ≡ₚ completion' →
  main_in periods fuel get completion = Some (Return out) →
  ∃ out', main_in periods fuel get completion' = Some (Return out') ∧
          identifier <$> aggregated_data out ≡ₚ identifier <$> aggregated_data out'.
Proof.
  intros Hperm Hrun.
  apply main_in_returns in Hrun as (finished & counts & Hfin & _ & [= ->]).
  destruct (mapM_Permutation _ _ _ _ Hperm Hfin) as (finished' & Hfin' & Hff').
  destruct (count_books_by_period_in_returns periods (aggregate (fst <$> finished')))
    as [counts' Hcounts'].
  { by eapply aggregate_valid, mapM_process_keyword_valid. }
  eexists. split.
  - unfold main_in. rewrite Hfin'. simpl. rewrite Hcounts'. reflexivity.
  - cbn [aggregated_data]. apply aggregate_identifiers_Permutation. by rewrite Hff'.
Qed.

Lemma main_identifiers_order_invariant_witness :
  ["A"; "B"] ≡ₚ ["B"; "A"] ∧
  ∃ out', main_in example_periods 1 mock_get ["B"; "A"] = Some (Return out') ∧
          [(PStr "X", PInt 2005%Z); (PStr "Y", PInt 2010%Z)]
          ≡ₚ identifier <$> aggregated_data out'.
Proof.
  split; [apply Permutation_swap|].
  apply (main_identifiers_order_invariant example_periods 1 mock_get
           ["A"; "B"] ["B"; "A"] _ (Permutation_swap _ _ _)
           example_run_A_then_B).
Defined.

(** C8, as stated, fails: no error comes before the fetching.  With no
    keyword [main] gets through its fetching, merging and counting
    with an empty table, and with overlapping periods it issues its
    request and counts as usual. *)
Lemma invalid_configuration_runs :
  spec_invalid_configuration [] TIME_PERIODS ∧
  main_in TIME_PERIODS 0 mock_get [] =
    Some (Return (RunOutput [] (list_to_map ((λ period, (period, 0)) <$> TIME_PERIODS))
                            [])) ∧
  spec_invalid_configuration ["A"] overlapping_periods ∧
  main_in overlapping_periods 1 mock_get ["A"] =
    Some (Return (RunOutput [Entry (PStr "X") (PInt 2005) "A"]
                            {[ (2000, 2010)%Z := 1; (2005, 2015)%Z := 0 ]}
                            [Params "A" 1000 1])).
Proof.
  split; [by left|]. split; [reflexivity|]. split; [by right|].
  vm_compute. reflexivity.
Qed.

(** C8 (amended): [main] checks nothing about its configuration before
    or while it fetches, merges and counts (its lines up to the call
    of [count_books_by_period]; the rest of [main] is not covered).
    With no keyword this part issues no request and ends with an empty
    table and every count at 0; with any keywords and any periods,
    once the workers have all finished, this part ends without an
    exception, page 1 of every keyword having been requested. *)
Theorem main_no_configuration_check (periods : list (Z * Z)) (fuel : nat)
    (get : params → response) (completion : list string) :
  main_in periods fuel get [] =
    Some (Return (RunOutput [] (list_to_map ((λ period, (period, 0)) <$> periods)) [])) ∧
  (∀ r, main_in periods fuel get completion = Some r →
        ∃ out, r = Return out ∧
               ∀ keyword, keyword ∈ completion →
                          Params keyword 1000 1 ∈ requests_issued out).
Proof.
  split.
  - unfold main_in, aggregate, count_books_by_period_in. reflexivity.
  - intros r Hrun.
    apply main_in_returns in Hrun as (finished & counts & Hfin & _ & ->).
    eexists. split; [done|]. cbn [requests_issued].
    intros keyword Hin. apply mapM_Some in Hfin.
    induction Hfin as [|kw [entries issued] completion finished Hkw _ IH].
    + by apply elem_of_nil in Hin.
    + cbn [fmap list_fmap snd concat]. apply elem_of_app.
      apply elem_of_cons in Hin as [->|Hin]; [left | right; by apply IH].
      by eapply process_keyword_first_request.
Qed.

Lemma main_no_configuration_check_witness :
  main_in overlapping_periods 1 mock_get ["A"] =
    Some (Return (RunOutput [Entry (PStr "X") (PInt 2005) "A"]
                            {[ (2000, 2010)%Z := 1; (2005, 2015)%Z := 0 ]}
                            [Params "A" 1000 1])) ∧
  ∃ out, Return (RunOutput [Entry (PStr "X") (PInt 2005) "A"]
                           {[ (2000, 2010)%Z := 1; (2005, 2015)%Z := 0 ]}
                           [Params "A" 1000 1]) = Return out ∧
         ∀ keyword, keyword ∈ ["A"] → Params keyword 1000 1 ∈ requests_issued out.
Proof.
  assert (main_in overlapping_periods 1 mock_get ["A"] =
          Some (Return (RunOutput [Entry (PStr "X") (PInt 2005) "A"]
                            {[ (2000, 2010)%Z := 1; (2005, 2015)%Z := 0 ]}
                            [Params "A" 1000 1]))) as Hrun
    by (vm_compute; reflexivity).
  split; [exact Hrun|].
  exact (proj2 (main_no_configuration_check overlapping_periods 1 mock_get ["A"])
               _ Hrun).
Defined.

(** * Part IV: further properties of script_2.py *)

(** ** remove_duplicates *)

Lemma remove_duplicates_ids (books : list entry) (k : pyval * pyval) :
  k ∈ identifier <$> remove_duplicates books ↔ k ∈ identifier <$> books.
Proof.
  rewrite remove_duplicates_dedup_from, dedup_from_ids.
  split; [tauto|]. intros Hk. split; [done | apply not_elem_of_empty].
Qed.

(** X1: deduplication loses no book and never grows the list: an
    identifier occurs in the output exactly when it occurs in the
    input, and the output is no longer than the input. *)
Theorem remove_duplicates_keeps_identifiers (books : list entry) :
  (∀ k, k ∈ identifier <$> remove_duplicates books ↔ k ∈ identifier <$> books) ∧
  length (remove_duplicates books) ≤ length books.
Proof.
  split; [apply remove_duplicates_ids|].
  rewrite remove_duplicates_dedup_from. apply sublist_length, dedup_from_sublist.
Qed.

(** X2: the input comes back unchanged exactly when it holds no two
    entries with the same identifier. *)
Theorem remove_duplicates_fixed_iff_NoDup (books : list entry) :
  remove_duplicates books = books ↔ NoDup (identifier <$> books).
Proof.
  rewrite remove_duplicates_dedup_from. split.
  - intros Heq. rewrite <- Heq. apply dedup_from_NoDup.
  - intros Hnd. apply dedup_from_fixed; [done|]. intros b _. apply not_elem_of_empty.
Qed.

(** Starting from a larger set of seen identifiers filters the result. *)
Lemma dedup_from_filter (s1 s2 : gset (pyval * pyval)) books :
  dedup_from (s1 ∪ s2) books =
  filter (λ b, identifier b ∉ s1) (dedup_from s2 books).
Proof.
  revert s2. induction books as [|b books IH]; intros s2; cbn [dedup_from]; [done|].
  destruct (decide (identifier b ∈ s2)) as [Hs2|Hs2].
  - rewrite decide_True by (apply elem_of_union; by right). apply IH.
  - destruct (decide (identifier b ∈ s1)) as [Hs1|Hs1].
    + rewrite decide_True by (apply elem_of_union; by left).
      rewrite filter_cons_False by tauto. rewrite <- IH. f_equal.
      apply set_eq. intros k. rewrite !elem_of_union, elem_of_singleton.
      split; [tauto|]. intros [?|[->|?]]; tauto.
    + rewrite decide_False by (rewrite elem_of_union; tauto).
      rewrite filter_cons_True by done. f_equal. rewrite <- IH. f_equal.
      apply set_eq. intros k. rewrite !elem_of_union, elem_of_singleton. tauto.
Qed.

Lemma dedup_from_app seen l1 l2 :
  dedup_from seen (l1 ++ l2) =
  dedup_from seen l1 ++ dedup_from (list_to_set (identifier <$> l1) ∪ seen) l2.
Proof.
  revert seen. induction l1 as [|b l1 IH]; intros seen; cbn [dedup_from app].
  - rewrite fmap_nil, list_to_set_nil. f_equal. apply set_eq. intros k.
    rewrite elem_of_union, elem_of_empty. tauto.
  - rewrite fmap_cons, list_to_set_cons.
    destruct (decide (identifier b ∈ seen)) as [Hin|Hout].
    + rewrite IH. do 2 f_equal. apply set_eq. intros k.
      rewrite !elem_of_union, elem_of_singleton. split; [tauto|].
      intros [[->|?]|?]; tauto.
    + cbn [app]. f_equal. rewrite IH. do 2 f_equal. apply set_eq. intros k.
      rewrite !elem_of_union, elem_of_singleton. tauto.
Qed.

Lemma remove_duplicates_app_filter (l1 l2 : list entry) :
  remove_duplicates (l1 ++ l2) =
  remove_duplicates l1 ++
  filter (λ b, identifier b ∉ identifier <$> l1) (remove_duplicates l2).
Proof.
  rewrite !remove_duplicates_dedup_from, dedup_from_app. f_equal.
  rewrite dedup_from_filter. apply list_filter_iff. intros b.
  by rewrite elem_of_list_to_set.
Qed.

(** X3: deduplicating a concatenation deduplicates the first part,
    then adds the deduplicated second part without the entries whose
    identifier the first part already has. *)
Theorem remove_duplicates_app (l1 l2 : list entry) :
  remove_duplicates (l1 ++ l2) =
  remove_duplicates l1 ++
  filter (λ b, identifier b ∉ identifier <$> l1) (remove_duplicates l2).
Proof. apply remove_duplicates_app_filter. Qed.

Lemma remove_duplicates_concat_dedup (partials : list (list entry)) :
  remove_duplicates (concat (remove_duplicates <$> partials)) =
  remove_duplicates (concat partials).
Proof.
  induction partials as [|l partials IH]; [done|].
  rewrite fmap_cons. cbn [concat]. rewrite !remove_duplicates_app_filter, IH.
  rewrite remove_duplicates_idempotent. f_equal.
  apply list_filter_iff. intros b.
  by rewrite remove_duplicates_ids.
Qed.

(** X4: the deduplication each worker does before returning changes
    nothing in the final table: merging the deduplicated partial
    results and merging the partial results as parsed give the same
    aggregated table. *)
Theorem aggregate_absorbs_worker_dedup (partials : list (list entry)) :
  aggregate (remove_duplicates <$> partials) = aggregate partials.
Proof.
  unfold aggregate. rewrite !merge_completed_concat.
  apply remove_duplicates_concat_dedup.
Qed.

Lemma aggregate_cons l completed :
  aggregate (l :: completed) =
  remove_duplicates l ++
  filter (λ b, identifier b ∉ identifier <$> l) (aggregate completed).
Proof.
  unfold aggregate. rewrite !merge_completed_concat. cbn [concat].
  apply remove_duplicates_app_filter.
Qed.

(** X5: an entry of the aggregated table comes from the first partial
    result, in completion order, that holds its identifier: no partial
    result merged earlier has a book with the same title and year. *)
Theorem aggregate_entry_from_first_partial (completed : list (list entry)) (e : entry) :
  e ∈ aggregate completed →
  ∃ before l after,
    completed = before ++ l :: after ∧ e ∈ l ∧
    Forall (λ l', identifier e ∉ identifier <$> l') before.
Proof.
  induction completed as [|l completed IH]; intros He.
  - by apply elem_of_nil in He.
  - rewrite aggregate_cons in He. apply elem_of_app in He as [He|He].
    + exists [], l, completed. split; [done|]. split; [|constructor].
      eapply elem_of_sublist; [done|].
      rewrite remove_duplicates_dedup_from. apply dedup_from_sublist.
    + apply list_elem_of_filter in He as [Hnew He].
      destruct (IH He) as (before & l' & after & -> & Hl' & Hbefore).
      exists (l :: before), l', after. split; [done|]. split; [done|].
      by constructor.
Qed.

Lemma aggregate_entry_from_first_partial_witness :
  Entry (PStr "X") (PInt 2005) "B" ∈
    aggregate [[Entry (PStr "Y") (PInt 2010) "A"];
               [Entry (PStr "X") (PInt 2005) "B"];
               [Entry (PStr "X") (PInt 2005) "C"]] ∧
  ∃ before l after,
    [[Entry (PStr "Y") (PInt 2010) "A"];
     [Entry (PStr "X") (PInt 2005) "B"];
     [Entry (PStr "X") (PInt 2005) "C"]] = before ++ l :: after ∧
    Entry (PStr "X") (PInt 2005) "B" ∈ l ∧
    Forall (λ l', identifier (Entry (PStr "X") (PInt 2005) "B") ∉ identifier <$> l')
           before.
Proof.
  assert (Entry (PStr "X") (PInt 2005) "B" ∈
    aggregate [[Entry (PStr "Y") (PInt 2010) "A"];
               [Entry (PStr "X") (PInt 2005) "B"];
               [Entry (PStr "X") (PInt 2005) "C"]]) as Hin.
  { vm_compute. right. left. }
  split; [exact Hin|].
  exact (aggregate_entry_from_first_partial _ _ Hin).
Defined.

(** ** count_books_by_period *)

Lemma count_one_alter_is_Some periods v year m :
  int_value v = Some year →
  (∀ p, p ∈ periods → is_Some (m !! p)) →
  ∃ m', count_one periods v m = Return m' ∧
        (∀ p, p ∈ periods → is_Some (m' !! p)).
Proof.
  intros Hv Hdom. rewrite (count_one_spec _ _ _ _ Hv Hdom).
  destruct (first_period periods year) as [q|]; eexists; (split; [done|]).
  - intros p Hp. apply lookup_alter_is_Some. by apply Hdom.
  - done.
Qed.

(** With at least one period, a year that is not an integer stops the
    count with a [TypeError]. *)
Lemma count_all_raises period periods books m :
  (∀ p, p ∈ period :: periods → is_Some (m !! p)) →
  Exists (λ b, ¬ valid_year b) books →
  count_all (period :: periods) books m = Raise TypeError.
Proof.
  intros Hdom Hex. revert m Hdom.
  induction books as [|b books IH]; intros m Hdom; [by apply Exists_nil in Hex|].
  cbn [count_all]. destruct (int_value (e_year b)) as [year|] eqn:Hyear.
  - destruct (count_one_alter_is_Some _ _ _ _ Hyear Hdom) as (m' & -> & Hdom').
    simpl. apply IH; [|done].
    apply List.Exists_cons in Hex as [Hb|Hex]; [|done].
    destruct Hb. apply valid_year_int_value. eauto.
  - by rewrite count_one_invalid.
Qed.

Lemma count_books_by_period_in_raises period periods books :
  Exists (λ b, ¬ valid_year b) books →
  count_books_by_period_in (period :: periods) books = Raise TypeError.
Proof.
  intros Hex. unfold count_books_by_period_in.
  apply count_all_raises; [apply initial_counts_is_Some | done].
Qed.

(** What the returned dictionary holds. *)
Lemma count_books_by_period_in_spec periods books counts :
  count_books_by_period_in periods books = Return counts →
  (∀ p, counts !! p =
        if decide (p ∈ periods) then Some (hits periods p books) else None) ∧
  total_count counts = length (filter (covered periods) books).
Proof.
  unfold count_books_by_period_in.
  set (init := list_to_map ((λ period, (period, 0)) <$> periods) : gmap (Z * Z) nat).
  assert (total_count init = 0) as Hzero.
  { apply total_count_zero. intros p c. unfold init. rewrite initial_counts_lookup.
    destruct (decide _); congruence. }
  intros Hrun. destruct periods as [|period periods].
  - rewrite count_all_no_periods in Hrun. injection Hrun as <-. split.
    + intros p. unfold init. rewrite initial_counts_lookup.
      rewrite decide_False; [done | apply not_elem_of_nil].
    + rewrite Hzero. symmetry. apply length_zero_iff_nil.
      induction books as [|b books IH]; [done|].
      rewrite filter_cons, decide_False; [done | apply not_covered_no_periods].
  - pose proof (count_all_Return_valid _ _ _ _ _ Hrun) as Hvalid.
    destruct (count_all_spec _ books init Hvalid (initial_counts_is_Some _))
      as (m' & Hrun' & Hlook & Htot).
    fold init in Hrun'. rewrite Hrun in Hrun'. injection Hrun' as <-. split.
    + intros p. rewrite Hlook. unfold init. rewrite initial_counts_lookup.
      by destruct (decide _).
    + by rewrite Htot, Hzero.
Qed.

(** X6: [count_books_by_period] returns a dictionary when every year
    of the table is an [int]; it raises [TypeError] when some entry has
    [None] or a string as its year, wherever the entry stands in the
    table; and it never raises [KeyError]. *)
Theorem count_books_by_period_TypeError (books : list entry) :
  (Forall (λ b, isinstance_int (e_year b) = true) books →
   ∃ counts, count_books_by_period books = Return counts) ∧
  (Exists (λ b, e_year b = PNone ∨ ∃ s, e_year b = PStr s) books →
   count_books_by_period books = Raise TypeError) ∧
  count_books_by_period books ≠ Raise KeyError.
Proof.
  unfold count_books_by_period.
  split; [apply count_books_by_period_in_returns|]. split.
  - intros Hex. unfold TIME_PERIODS. apply count_books_by_period_in_raises.
    eapply List.Exists_impl; [|exact Hex].
    intros b [Hb|[s Hb]]; unfold valid_year; by rewrite Hb.
  - destruct (decide (Forall valid_year books)) as [Hvalid|Hinvalid].
    + by destruct (count_books_by_period_in_returns TIME_PERIODS books Hvalid)
        as [counts ->].
    + apply not_Forall_Exists in Hinvalid; [|apply _].
      unfold TIME_PERIODS. by rewrite (count_books_by_period_in_raises _ _ _ Hinvalid).
Qed.

Lemma count_books_by_period_TypeError_witness :
  Forall (λ b, isinstance_int (e_year b) = true) sample_table ∧
  (∃ counts, count_books_by_period sample_table = Return counts) ∧
  Exists (λ b, e_year b = PNone ∨ ∃ s, e_year b = PStr s)
         [Entry (PStr "X") (PInt 2005) "A"; Entry (PStr "Y") (PStr "N/A") "A"] ∧
  count_books_by_period
    [Entry (PStr "X") (PInt 2005) "A"; Entry (PStr "Y") (PStr "N/A") "A"] =
  Raise TypeError.
Proof.
  assert (Forall (λ b, isinstance_int (e_year b) = true) sample_table) as Hvalid
    by (repeat constructor).
  assert (Exists (λ b, e_year b = PNone ∨ ∃ s, e_year b = PStr s)
            [Entry (PStr "X") (PInt 2005) "A"; Entry (PStr "Y") (PStr "N/A") "A"])
    as Hbad by (right; left; right; by exists "N/A").
  split; [exact Hvalid|].
  split; [exact (proj1 (count_books_by_period_TypeError sample_table) Hvalid)|].
  split; [exact Hbad|].
  exact (proj1 (proj2 (count_books_by_period_TypeError _)) Hbad).
Defined.

(** When the periods do not overlap, the first period that contains a
    year is the only one. *)
Lemma first_period_disjoint periods year p :
  periods_disjoint periods → p ∈ periods →
  first_period periods year = Some p ↔ in_period year p.
Proof.
  intros Hdisj Hp. split.
  - intros Hfirst. by apply first_period_elem_of in Hfirst as [_ ?].
  - intros Hin.
    destruct (first_period periods year) as [q|] eqn:Hq.
    + destruct (first_period_elem_of _ _ _ Hq) as [Hqin Hyq].
      f_equal. by apply (Hdisj q p year).
    + apply first_period_None in Hq.
      apply list.Forall_forall with (x := p) in Hq; [done | done].
Qed.

Lemma hits_disjoint periods p books :
  periods_disjoint periods → p ∈ periods →
  hits periods p books = length (filter (year_in p) books).
Proof.
  intros Hdisj Hp. unfold hits. f_equal. apply list_filter_iff. intros b.
  unfold entry_period, year_in. destruct (int_value (e_year b)) as [year|]; simpl.
  - rewrite (first_period_disjoint _ _ _ Hdisj Hp). split; [by eauto|].
    by intros (? & [= <-] & ?).
  - split; [done | by intros (? & [=] & _)].
Qed.

(** X7: with periods that do not overlap, the count of each period is
    the number of entries whose year lies in it, so the order in which
    the periods are listed does not matter. *)
Theorem count_books_by_period_disjoint (periods : list (Z * Z)) (books : list entry)
    (counts : gmap (Z * Z) nat) :
  periods_disjoint periods →
  count_books_by_period_in periods books = Return counts →
  ∀ p, p ∈ periods → counts !! p = Some (length (filter (year_in p) books)).
Proof.
  intros Hdisj Hrun p Hp.
  destruct (count_books_by_period_in_spec _ _ _ Hrun) as [Hlook _].
  rewrite Hlook, decide_True by done. f_equal. by apply hits_disjoint.
Qed.

Lemma TIME_PERIODS_disjoint : periods_disjoint TIME_PERIODS.
Proof.
  intros [s e] [s' e'] year Hp Hq. unfold TIME_PERIODS in *.
  repeat (apply elem_of_cons in Hp as [[= -> ->]|Hp]);
    [..|by apply elem_of_nil in Hp];
    repeat (apply elem_of_cons in Hq as [[= -> ->]|Hq]);
    try (by apply elem_of_nil in Hq);
    unfold in_period; simpl; intros; first [reflexivity | lia].
Qed.

Lemma count_books_by_period_disjoint_witness :
  periods_disjoint TIME_PERIODS ∧
  count_books_by_period_in TIME_PERIODS sample_table =
    Return (<[(2004, 2005)%Z := 1]>
             (<[(2010, 2011)%Z := 1]>
                (list_to_map ((λ period, (period, 0)) <$> TIME_PERIODS)))) ∧
  ∀ p, p ∈ TIME_PERIODS →
       (<[(2004, 2005)%Z := 1]>
          (<[(2010, 2011)%Z := 1]>
             (list_to_map ((λ period, (period, 0)) <$> TIME_PERIODS)))
        : gmap (Z * Z) nat) !! p =
       Some (length (filter (year_in p) sample_table)).
Proof.
  assert (count_books_by_period_in TIME_PERIODS sample_table =
    Return (<[(2004, 2005)%Z := 1]>
             (<[(2010, 2011)%Z := 1]>
                (list_to_map ((λ period, (period, 0)) <$> TIME_PERIODS)))))
    as Hrun by (vm_compute; reflexivity).
  split; [exact TIME_PERIODS_disjoint|]. split; [exact Hrun|].
  exact (count_books_by_period_disjoint TIME_PERIODS sample_table _
           TIME_PERIODS_disjoint Hrun).
Defined.

Lemma covered_TIME_PERIODS b :
  covered TIME_PERIODS b ↔ year_in (2002, 2023)%Z b.
Proof.
  unfold covered, year_in, TIME_PERIODS.
  split; intros (year & Hyear & Hin); exists year; (split; [done|]).
  - repeat (apply List.Exists_cons in Hin as [Hin|Hin]);
      [..|by apply List.Exists_nil in Hin];
      unfold in_period in *; simpl in *; lia.
  - repeat rewrite List.Exists_cons. rewrite List.Exists_nil.
    unfold in_period in *. simpl in *. lia.
Qed.

Lemma filter_none {A} (P : A → Prop) `{∀ x, Decision (P x)} (l : list A) :
  Forall (λ x, ¬ P x) l → filter P l = [].
Proof.
  induction 1 as [|x l Hx _ IH]; [done|]. by rewrite filter_cons_False.
Qed.

(** X8: the dictionary [count_books_by_period] returns has exactly the
    eleven periods of [TIME_PERIODS] as keys, a period absent from the
    table keeping the count 0, and its counts add up to the number of
    entries whose year lies between 2002 and 2023. *)
Theorem count_books_by_period_2002_2023 (books : list entry)
    (counts : gmap (Z * Z) nat) :
  count_books_by_period books = Return counts →
  dom counts = list_to_set TIME_PERIODS ∧
  size counts = 11 ∧
  (∀ p, p ∈ TIME_PERIODS → Forall (λ b, ¬ year_in p b) books → counts !! p = Some 0) ∧
  total_count counts = length (filter (year_in (2002, 2023)%Z) books).
Proof.
  unfold count_books_by_period. intros Hrun.
  destruct (count_books_by_period_in_spec _ _ _ Hrun) as [Hlook Htot].
  assert (dom counts = list_to_set TIME_PERIODS) as Hdom.
  { apply set_eq. intros p. rewrite elem_of_dom, Hlook, elem_of_list_to_set.
    destruct (decide (p ∈ TIME_PERIODS)); split; try done; by intros [? [=]]. }
  split; [done|]. split; [|split].
  - rewrite <- size_dom, Hdom. reflexivity.
  - intros p Hp Hnone. rewrite Hlook, decide_True by done. f_equal.
    rewrite (hits_disjoint _ _ _ TIME_PERIODS_disjoint Hp).
    by rewrite filter_none.
  - rewrite Htot. f_equal. apply list_filter_iff, covered_TIME_PERIODS.
Qed.

Lemma count_books_by_period_2002_2023_witness :
  count_books_by_period sample_table =
    Return (<[(2004, 2005)%Z := 1]>
             (<[(2010, 2011)%Z := 1]>
                (list_to_map ((λ period, (period, 0)) <$> TIME_PERIODS)))) ∧
  total_count (<[(2004, 2005)%Z := 1]>
                 (<[(2010, 2011)%Z := 1]>
                    (list_to_map ((λ period, (period, 0)) <$> TIME_PERIODS)))) =
  length (filter (year_in (2002, 2023)%Z) sample_table).
Proof.
  assert (count_books_by_period sample_table =
    Return (<[(2004, 2005)%Z := 1]>
             (<[(2010, 2011)%Z := 1]>
                (list_to_map ((λ period, (period, 0)) <$> TIME_PERIODS)))))
    as Hrun by (vm_compute; reflexivity).
  split; [exact Hrun|].
  exact (proj2 (proj2 (proj2 (count_books_by_period_2002_2023 _ _ Hrun)))).
Defined.

Lemma filter_fmap_length {A B} (f : A → B) (P : B → Prop)
    `{∀ y, Decision (P y)} (l : list A) :
  length (filter P (f <$> l)) = length (filter (λ x, P (f x)) l).
Proof.
  induction l as [|x l IH]; [done|].
  rewrite fmap_cons, !filter_cons. destruct (decide (P (f x))); simpl; by rewrite IH.
Qed.

Lemma int_value_py_canon v : int_value (py_canon v) = int_value v.
Proof. by destruct v. Qed.

(** The hits of a period are a function of the years, taken up to
    Python equality. *)
Lemma hits_years periods p books :
  hits periods p books =
  length (filter (λ v, int_value v ≫= first_period periods = Some p)
                 (py_canon ∘ e_year <$> books)).
Proof.
  unfold hits. rewrite filter_fmap_length. f_equal. apply list_filter_iff.
  intros b. unfold entry_period. simpl. by rewrite int_value_py_canon.
Qed.

Lemma valid_year_years books :
  Forall valid_year books ↔
  Forall (λ v, isinstance_int v = true) (py_canon ∘ e_year <$> books).
Proof.
  rewrite Forall_fmap. apply Forall_proper; [|done].
  intros b. unfold valid_year. simpl. by destruct (e_year b).
Qed.

Lemma count_in_years_Permutation periods books books' :
  py_canon ∘ e_year <$> books ≡ₚ py_canon ∘ e_year <$> books' →
  count_books_by_period_in periods books = count_books_by_period_in periods books'.
Proof.
  intros Hperm. destruct periods as [|period periods].
  { unfold count_books_by_period_in. by rewrite !count_all_no_periods. }
  destruct (decide (Forall valid_year books)) as [Hvalid|Hinvalid].
  - assert (Forall valid_year books') as Hvalid'.
    { apply valid_year_years. rewrite <- Hperm. by apply valid_year_years. }
    destruct (count_books_by_period_in_returns (period :: periods) books Hvalid)
      as [counts Hrun].
    destruct (count_books_by_period_in_returns (period :: periods) books' Hvalid')
      as [counts' Hrun'].
    rewrite Hrun, Hrun'. f_equal. apply map_eq. intros p.
    rewrite (proj1 (count_books_by_period_in_spec _ _ _ Hrun)).
    rewrite (proj1 (count_books_by_period_in_spec _ _ _ Hrun')).
    destruct (decide _); [|done]. f_equal. rewrite !hits_years. by rewrite Hperm.
  - assert (¬ Forall valid_year books') as Hinvalid'.
    { intros Hvalid'. apply Hinvalid, valid_year_years. rewrite Hperm.
      by apply valid_year_years. }
    apply not_Forall_Exists in Hinvalid; [|apply _].
    apply not_Forall_Exists in Hinvalid'; [|apply _].
    by rewrite !count_books_by_period_in_raises.
Qed.

(** X9: the outcome of the count depends only on the years of the
    table, as a multiset and up to Python equality: neither the order
    of the entries nor their titles and keywords matter. *)
Theorem count_books_by_period_years_only (periods : list (Z * Z))
    (books books' : list entry) :
  py_canon ∘ e_year <$> books ≡ₚ py_canon ∘ e_year <$> books' →
  count_books_by_period_in periods books = count_books_by_period_in periods books'.
Proof. apply count_in_years_Permutation. Qed.

Lemma count_books_by_period_years_only_witness :
  py_canon ∘ e_year <$> [Entry (PStr "X") (PInt 1) "A"; Entry (PStr "Y") (PInt 2005) "B"]
  ≡ₚ py_canon ∘ e_year <$> [Entry PNone (PInt 2005) "C"; Entry (PStr "Z") (PBool true) "A"] ∧
  count_books_by_period_in TIME_PERIODS
    [Entry (PStr "X") (PInt 1) "A"; Entry (PStr "Y") (PInt 2005) "B"] =
  count_books_by_period_in TIME_PERIODS
    [Entry PNone (PInt 2005) "C"; Entry (PStr "Z") (PBool true) "A"].
Proof.
  assert (py_canon ∘ e_year <$>
            [Entry (PStr "X") (PInt 1) "A"; Entry (PStr "Y") (PInt 2005) "B"]
          ≡ₚ py_canon ∘ e_year <$>
            [Entry PNone (PInt 2005) "C"; Entry (PStr "Z") (PBool true) "A"]) as Hperm
    by apply Permutation_swap.
  split; [exact Hperm|].
  exact (count_books_by_period_years_only TIME_PERIODS _ _ Hperm).
Defined.

(** X10: the period counts of a run do not depend on the order in which
    the workers complete. *)
Theorem main_period_counts_order_invariant (periods : list (Z * Z)) (fuel : nat)
    (get : params → response) (completion completion' : list string)
    (out : run_output) :
  completion ≡ₚ completion' →
  main_in periods fuel get completion = Some (Return out) →
  ∃ out', main_in periods fuel get completion' = Some (Return out') ∧
          period_counts out' = period_counts out.
Proof.
  intros Hperm Hrun.
  apply main_in_returns in Hrun as (finished & counts & Hfin & Hcounts & [= ->]).
  destruct (mapM_Permutation _ _ _ _ Hperm Hfin) as (finished' & Hfin' & Hff').
  assert (count_books_by_period_in periods (aggregate (fst <$> finished')) =
          Return counts) as Hcounts'.
  { rewrite <- Hcounts. apply count_in_years_Permutation.
    assert (identifier <$> aggregate (fst <$> finished') ≡ₚ
            identifier <$> aggregate (fst <$> finished)) as Hids.
    { apply aggregate_identifiers_Permutation. by rewrite Hff'. }
    apply (fmap_Permutation snd) in Hids.
    by rewrite <- !list_fmap_compose in Hids. }
  eexists. split.
  - unfold main_in. rewrite Hfin'. simpl. rewrite Hcounts'. reflexivity.
  - done.
Qed.

Lemma main_period_counts_order_invariant_witness :
  ["A"; "B"] ≡ₚ ["B"; "A"] ∧
  ∃ out', main_in example_periods 1 mock_get ["B"; "A"] = Some (Return out') ∧
          period_counts out' = {[ (2004, 2005)%Z := 1; (2006, 2011)%Z := 1 ]}.
Proof.
  split; [apply Permutation_swap|].
  apply (main_period_counts_order_invariant example_periods 1 mock_get
           ["A"; "B"] ["B"; "A"] _ (Permutation_swap _ _ _) example_run_A_then_B).
Defined.

(** ** fetch_books *)

Lemma full_page_decide limit r : full_page limit r ∨ ¬ full_page limit r.
Proof.
  unfold full_page. destruct r as [|[docs|]].
  - right. by intros (? & [=] & _).
  - destruct (decide (docs ≠ [] ∧ limit ≤ length docs)) as [Hfull|Hshort].
    + left. by exists docs.
    + right. intros (? & [= <-] & ?). tauto.
  - right. by intros (? & [=] & _).
Qed.

Lemma fetch_iter_full_page get st :
  full_page (p_limit (fs_params st)) (get (fs_params st)) →
  fetch_iter get st =
  Continue (FetchState (next_page (fs_params st))
                       (fs_all_books st ++ page_docs (get (fs_params st)))
                       (fs_requests st ++ [fs_params st])).
Proof.
  intros (docs & Hget & Hne & Hlen). rewrite Hget. cbn [page_docs].
  by apply fetch_iter_full.
Qed.

Lemma fetch_iter_last_page get st :
  ¬ full_page (p_limit (fs_params st)) (get (fs_params st)) →
  fetch_iter get st =
  Break (FetchState (fs_params st)
                    (fs_all_books st ++ page_docs (get (fs_params st)))
                    (fs_requests st ++ [fs_params st])).
Proof.
  intros Hlast. destruct (get (fs_params st)) as [|[docs|]] eqn:Hget;
    cbn [page_docs]; rewrite ?app_nil_r.
  - by apply fetch_iter_failed.
  - destruct (decide (length docs < p_limit (fs_params st))) as [Hlt|Hge];
      [by apply fetch_iter_short|].
    destruct docs as [|bk docs].
    + unfold fetch_iter. rewrite Hget. by rewrite app_nil_r.
    + destruct Hlast. exists (bk :: docs). split; [done|]. split; [done | lia].
  - unfold fetch_iter. by rewrite Hget.
Qed.

(** Where a finished loop stands: it has walked over full pages and
    stopped at the first page that is not full. *)
Lemma fetch_loop_sound get keyword limit fuel :
  ∀ start all_books issued st',
  fetch_loop fuel get (FetchState (Params keyword limit start) all_books issued)
    = Some st' →
  ∃ n, n < fuel ∧
       fs_requests st' = issued ++ (Params keyword limit <$> seq start (S n)) ∧
       fs_all_books st' =
         all_books ++
         concat ((λ i, page_docs (get (Params keyword limit i))) <$> seq start (S n)) ∧
       (∀ i, start ≤ i < start + n → full_page limit (get (Params keyword limit i))) ∧
       ¬ full_page limit (get (Params keyword limit (start + n))).
Proof.
  induction fuel as [|fuel IH]; intros start all_books issued st' Hrun; [done|].
  rewrite fetch_loop_S in Hrun.
  destruct (full_page_decide limit (get (Params keyword limit start))) as [Hfull|Hlast].
  - rewrite fetch_iter_full_page in Hrun by done.
    unfold next_page in Hrun.
    cbn [fs_params fs_all_books fs_requests p_title p_limit p_page] in Hrun.
    destruct (IH _ _ _ _ Hrun) as (n & Hn & Hreq & Hbooks & Hfulls & Hstop).
    exists (S n). split; [lia|].
    replace (start + 1) with (S start) in * by lia.
    split; [|split; [|split]].
    + rewrite Hreq. cbn [seq fmap list_fmap]. by rewrite <- app_assoc.
    + rewrite Hbooks. cbn [seq fmap list_fmap concat]. by rewrite <- !app_assoc.
    + intros i Hi. destruct (decide (i = start)) as [->|Hne]; [done|].
      apply Hfulls. lia.
    + by replace (start + S n) with (S start + n) by lia.
  - rewrite fetch_iter_last_page in Hrun by done. injection Hrun as <-.
    exists 0. split; [lia|]. cbn [fs_requests fs_all_books seq fmap list_fmap concat].
    rewrite app_nil_r, Nat.add_0_r. split; [done|]. split; [done|].
    split; [intros i Hi; lia | done].
Qed.

Lemma fetch_books_sound (get : params → response) (keyword : string)
    (fuel : nat) (books : list book) (issued : list params) :
  fetch_books fuel get keyword = Some (books, issued) →
  ∃ n, 1 ≤ n ≤ fuel ∧
       issued = page_request keyword <$> seq 1 n ∧
       books = concat ((λ i, page_docs (get (page_request keyword i))) <$> seq 1 n) ∧
       (∀ i, 1 ≤ i < n → full_page 1000 (get (page_request keyword i))) ∧
       ¬ full_page 1000 (get (page_request keyword n)).
Proof.
  unfold fetch_books, fetch_init.
  destruct (fetch_loop fuel get _) as [st'|] eqn:Hrun; [|done].
  simpl. intros [= <- <-].
  destruct (fetch_loop_sound _ _ _ _ _ _ _ _ Hrun)
    as (n & Hn & Hreq & Hbooks & Hfulls & Hstop).
  exists (S n). split; [lia|]. split; [done|]. split; [done|].
  split; [intros i Hi; apply Hfulls; lia | done].
Qed.

(** X11: whenever [fetch_books] returns, it has requested the pages
    1, 2, ..., n of the keyword, in this order and each once, with the
    limit 1000; every page before the last one was full, the last one
    was not, and the list returned holds the records of all these
    pages in order. *)
Theorem fetch_books_returns_pages (get : params → response) (keyword : string)
    (fuel : nat) (books : list book) (issued : list params) :
  fetch_books fuel get keyword = Some (books, issued) →
  ∃ n, 1 ≤ n ≤ fuel ∧
       issued = page_request keyword <$> seq 1 n ∧
       books = concat ((λ i, page_docs (get (page_request keyword i))) <$> seq 1 n) ∧
       (∀ i, 1 ≤ i < n → full_page 1000 (get (page_request keyword i))) ∧
       ¬ full_page 1000 (get (page_request keyword n)).
Proof. apply fetch_books_sound. Qed.

Lemma fetch_books_returns_pages_witness :
  fetch_books 3 mock_get "B" = Some ([book_X; book_Y], [Params "B" 1000 1]) ∧
  ∃ n, 1 ≤ n ≤ 3 ∧
       [Params "B" 1000 1] = page_request "B" <$> seq 1 n ∧
       [book_X; book_Y] =
         concat ((λ i, page_docs (mock_get (page_request "B" i))) <$> seq 1 n) ∧
       (∀ i, 1 ≤ i < n → full_page 1000 (mock_get (page_request "B" i))) ∧
       ¬ full_page 1000 (mock_get (page_request "B" n)).
Proof.
  assert (fetch_books 3 mock_get "B" = Some ([book_X; book_Y], [Params "B" 1000 1]))
    as Hrun by reflexivity.
  split; [exact Hrun|].
  exact (fetch_books_returns_pages mock_get "B" 3 _ _ Hrun).
Defined.

Lemma fetch_books_stops get keyword n fuel :
  (∀ i, 1 ≤ i ≤ n → full_page 1000 (get (page_request keyword i))) →
  ¬ full_page 1000 (get (page_request keyword (S n))) →
  n < fuel →
  fetch_books fuel get keyword =
  Some (concat ((λ i, page_docs (get (page_request keyword i))) <$> seq 1 (S n)),
        page_request keyword <$> seq 1 (S n)).
Proof.
  intros Hfulls Hlast Hfuel. unfold fetch_books, fetch_init, page_request in *.
  set (pages := (λ i, page_docs (get (Params keyword 1000 i))) <$> seq 1 n).
  assert (length pages = n) as Hlen by (unfold pages; by rewrite length_fmap, length_seq).
  replace fuel with (length pages + S (fuel - S n)) by lia.
  rewrite fetch_loop_full_pages.
  - rewrite fetch_loop_S, fetch_iter_last_page; rewrite Hlen; [|done].
    cbn [mbind option_bind fs_all_books fs_requests fs_params app].
    rewrite !seq_S, !fmap_app, concat_app. cbn [fmap list_fmap concat].
    by rewrite app_nil_r.
  - intros i docs Hi. unfold pages in Hi. rewrite list_lookup_fmap in Hi.
    destruct (seq 1 n !! i) as [j|] eqn:Hj; [|done]. simpl in Hi. injection Hi as <-.
    apply lookup_seq in Hj as [-> Hlt].
    destruct (Hfulls (1 + i)) as (docs & Hget & Hne & Hlen'); [lia|].
    rewrite Hget. done.
Qed.

(** X12: [fetch_books] stops at the first page that is not full: if
    the pages 1 to n are full and page n+1 is not (a failed request, a
    body without [docs], an empty or a short page), it returns the
    records of the pages 1 to n+1 after exactly n+1 requests. *)
Theorem fetch_books_stops_at_first_short_page (get : params → response)
    (keyword : string) (n fuel : nat) :
  (∀ i, 1 ≤ i ≤ n → full_page 1000 (get (page_request keyword i))) →
  ¬ full_page 1000 (get (page_request keyword (S n))) →
  n < fuel →
  fetch_books fuel get keyword =
  Some (concat ((λ i, page_docs (get (page_request keyword i))) <$> seq 1 (S n)),
        page_request keyword <$> seq 1 (S n)).
Proof. apply fetch_books_stops. Qed.

Lemma fetch_books_stops_at_first_short_page_witness :
  (∀ i, 1 ≤ i ≤ 1 → full_page 1000 (failing_get (page_request "A" i))) ∧
  ¬ full_page 1000 (failing_get (page_request "A" 2)) ∧
  fetch_books 2 failing_get "A" =
  Some (concat ((λ i, page_docs (failing_get (page_request "A" i))) <$> seq 1 2),
        page_request "A" <$> seq 1 2).
Proof.
  assert (∀ i, 1 ≤ i ≤ 1 → full_page 1000 (failing_get (page_request "A" i))) as Hfull.
  { intros i Hi. assert (i = 1) as -> by lia. eexists. split; [reflexivity|].
    split; [done|]. by rewrite length_replicate. }
  assert (¬ full_page 1000 (failing_get (page_request "A" 2))) as Hlast
    by (by intros (? & [=] & _)).
  split; [exact Hfull|]. split; [exact Hlast|].
  exact (fetch_books_stops_at_first_short_page failing_get "A" 1 2 Hfull Hlast
           (le_n 2)).
Defined.

(** X13: on a source every page of which is full the loop never ends:
    no number of iterations makes [fetch_books], and so
    [process_keyword], return. *)
Theorem fetch_books_runs_forever_on_full_pages (get : params → response)
    (keyword : string) :
  (∀ i, 1 ≤ i → full_page 1000 (get (page_request keyword i))) →
  ∀ fuel, fetch_books fuel get keyword = None ∧
          process_keyword fuel get keyword = None.
Proof.
  intros Hfull fuel.
  assert (fetch_books fuel get keyword = None) as Hnone.
  { destruct (fetch_books fuel get keyword) as [[books issued]|] eqn:Hrun; [|done].
    destruct (fetch_books_sound _ _ _ _ _ Hrun) as (n & Hn & _ & _ & _ & Hstop).
    destruct Hstop. apply Hfull. lia. }
  split; [done|]. unfold process_keyword. by rewrite Hnone.
Qed.

Lemma fetch_books_runs_forever_on_full_pages_witness :
  (∀ i, 1 ≤ i → full_page 1000 (always_full_get (page_request "A" i))) ∧
  fetch_books 3 always_full_get "A" = None ∧
  process_keyword 3 always_full_get "A" = None.
Proof.
  assert (∀ i, 1 ≤ i → full_page 1000 (always_full_get (page_request "A" i))) as Hfull.
  { intros i _. eexists. split; [reflexivity|]. split; [done|].
    by rewrite length_replicate. }
  split; [exact Hfull|].
  exact (fetch_books_runs_forever_on_full_pages always_full_get "A" Hfull 3).
Defined.

(** ** process_keyword *)

Lemma full_page_docs limit r : full_page limit r → page_docs r ≠ [].
Proof. by intros (docs & -> & Hne & _). Qed.

(** X14: a first request that fails, a first body without [docs] and
    an empty first page all end the same way: [process_keyword]
    returns the empty list after this one request. *)
Theorem process_keyword_nothing_on_first_page (get : params → response)
    (keyword : string) (fuel : nat) :
  page_docs (get (page_request keyword 1)) = [] →
  0 < fuel →
  process_keyword fuel get keyword = Some ([], [page_request keyword 1]).
Proof.
  intros Hempty Hfuel. rewrite process_keyword_fetch.
  rewrite (fetch_books_stops get keyword 0 fuel); [|intros i Hi; lia| |done].
  - cbn [seq fmap list_fmap concat]. rewrite Hempty. reflexivity.
  - intros Hfull. by apply full_page_docs in Hfull.
Qed.

Lemma process_keyword_nothing_on_first_page_witness :
  page_docs (failing_get (page_request "A" 2)) = [] ∧
  page_docs (mock_get (page_request "C" 1)) = [] ∧
  process_keyword 1 mock_get "C" = Some ([], [page_request "C" 1]).
Proof.
  split; [reflexivity|]. split; [reflexivity|].
  exact (process_keyword_nothing_on_first_page mock_get "C" 1 eq_refl (le_n 1)).
Defined.

Lemma parse_keyword data keyword :
  Forall (λ e, e_keyword e = keyword) (parse_book_titles_and_dates data keyword).
Proof.
  rewrite parse_omap. induction data as [|bk data IH]; [constructor|].
  cbn [omap list_omap]. unfold parse_one at 1.
  destruct (isinstance_int _); [by constructor | done].
Qed.

Lemma remove_duplicates_Forall (P : entry → Prop) books :
  Forall P books → Forall P (remove_duplicates books).
Proof.
  rewrite !list.Forall_forall. intros Hall b Hb. apply Hall.
  eapply elem_of_sublist; [done|].
  rewrite remove_duplicates_dedup_from. apply dedup_from_sublist.
Qed.

Lemma remove_duplicates_NoDup books : NoDup (identifier <$> remove_duplicates books).
Proof. rewrite remove_duplicates_dedup_from. apply dedup_from_NoDup. Qed.

Lemma omap_length_le {A B} (f : A → option B) (l : list A) :
  length (omap f l) ≤ length l.
Proof.
  induction l as [|x l IH]; [done|]. cbn [omap list_omap].
  destruct (f x); simpl; lia.
Qed.

Lemma process_keyword_entries fuel get keyword entries issued :
  process_keyword fuel get keyword = Some (entries, issued) →
  ∃ books, fetch_books fuel get keyword = Some (books, issued) ∧
           entries = remove_duplicates (parse_book_titles_and_dates books keyword).
Proof.
  rewrite process_keyword_fetch.
  destruct (fetch_books fuel get keyword) as [[books issued']|]; [|done].
  simpl. intros [= <- <-]. by exists books.
Qed.

(** X15: what a worker hands back: the parsed and deduplicated records
    of the pages it fetched, so every entry carries the worker's
    keyword and an integer year, no two entries share an identifier,
    and there are no more entries than records fetched. *)
Theorem process_keyword_result (fuel : nat) (get : params → response)
    (keyword : string) (entries : list entry) (issued : list params) :
  process_keyword fuel get keyword = Some (entries, issued) →
  ∃ books,
    fetch_books fuel get keyword = Some (books, issued) ∧
    entries = remove_duplicates (parse_book_titles_and_dates books keyword) ∧
    Forall (λ e, e_keyword e = keyword ∧ valid_year e) entries ∧
    NoDup (identifier <$> entries) ∧
    length entries ≤ length books.
Proof.
  intros Hrun. destruct (process_keyword_entries _ _ _ _ _ Hrun) as (books & Hfetch & ->).
  exists books. split; [done|]. split; [done|]. split; [|split].
  - apply remove_duplicates_Forall, List.Forall_and;
      [apply parse_keyword | apply parse_years_int].
  - apply remove_duplicates_NoDup.
  - rewrite remove_duplicates_dedup_from, parse_omap.
    etrans; [apply sublist_length, dedup_from_sublist|]. apply omap_length_le.
Qed.

Lemma process_keyword_result_witness :
  process_keyword 1 mock_get "B" =
    Some ([Entry (PStr "X") (PInt 2005) "B"; Entry (PStr "Y") (PInt 2010) "B"],
          [Params "B" 1000 1]) ∧
  ∃ books,
    fetch_books 1 mock_get "B" = Some (books, [Params "B" 1000 1]) ∧
    [Entry (PStr "X") (PInt 2005) "B"; Entry (PStr "Y") (PInt 2010) "B"] =
      remove_duplicates (parse_book_titles_and_dates books "B") ∧
    Forall (λ e, e_keyword e = "B" ∧ valid_year e)
           [Entry (PStr "X") (PInt 2005) "B"; Entry (PStr "Y") (PInt 2010) "B"] ∧
    NoDup (identifier <$>
             [Entry (PStr "X") (PInt 2005) "B"; Entry (PStr "Y") (PInt 2010) "B"]) ∧
    length [Entry (PStr "X") (PInt 2005) "B"; Entry (PStr "Y") (PInt 2010) "B"]
      ≤ length books.
Proof.
  assert (process_keyword 1 mock_get "B" =
    Some ([Entry (PStr "X") (PInt 2005) "B"; Entry (PStr "Y") (PInt 2010) "B"],
          [Params "B" 1000 1])) as Hrun by (vm_compute; reflexivity).
  split; [exact Hrun|].
  exact (process_keyword_result 1 mock_get "B" _ _ Hrun).
Defined.

(** ** main *)

Lemma Forall2_elem_of_r {A B} (P : A → B → Prop) (l : list A) (k : list B) y :
  Forall2 P l k → y ∈ k → ∃ x, x ∈ l ∧ P x y.
Proof.
  induction 1 as [|x y' l k Hxy _ IH]; intros Hy; [by apply elem_of_nil in Hy|].
  apply elem_of_cons in Hy as [->|Hy].
  - exists x. split; [left | done].
  - destruct (IH Hy) as (x' & Hx' & HP). exists x'. split; [by right | done].
Qed.

Lemma finished_workers fuel get completion finished y :
  mapM (process_keyword fuel get) completion = Some finished →
  y ∈ finished →
  ∃ keyword, keyword ∈ completion ∧ process_keyword fuel get keyword = Some y.
Proof.
  intros Hfin%mapM_Some Hy.
  exact (Forall2_elem_of_r
           (λ keyword y, process_keyword fuel get keyword = Some y) _ _ _ Hfin Hy).
Qed.

(** X16: what a run of [main] that returns leaves behind: a table
    without two entries of the same identifier, whose entries all have
    an integer year and the keyword of one of the workers; requests
    that all ask for a page from 1 on of one of the keywords, with the
    limit 1000; and period counts that add up to at most the number of
    entries of the table. *)
Theorem main_run_invariants (periods : list (Z * Z)) (fuel : nat)
    (get : params → response) (completion : list string) (out : run_output) :
  main_in periods fuel get completion = Some (Return out) →
  NoDup (identifier <$> aggregated_data out) ∧
  Forall (λ e, valid_year e ∧ e_keyword e ∈ completion) (aggregated_data out) ∧
  Forall (λ p, p_limit p = 1000 ∧ p_title p ∈ completion ∧ 1 ≤ p_page p)
         (requests_issued out) ∧
  total_count (period_counts out) ≤ length (aggregated_data out).
Proof.
  intros Hrun.
  apply main_in_returns in Hrun as (finished & counts & Hfin & Hcounts & [= ->]).
  cbn [aggregated_data requests_issued period_counts].
  split; [apply remove_duplicates_NoDup|]. split; [|split].
  - unfold aggregate. rewrite merge_completed_concat.
    apply remove_duplicates_Forall, Forall_concat, list.Forall_forall.
    intros l Hl. apply list_elem_of_fmap in Hl as ([entries issued] & -> & Hy).
    destruct (finished_workers _ _ _ _ _ Hfin Hy) as (keyword & Hk & Hproc).
    destruct (process_keyword_entries _ _ _ _ _ Hproc) as (books & _ & ->).
    apply remove_duplicates_Forall, List.Forall_and; [apply parse_years_int|].
    eapply list.Forall_impl; [apply parse_keyword|]. by intros e ->.
  - apply Forall_concat, list.Forall_forall.
    intros l Hl. apply list_elem_of_fmap in Hl as ([entries issued] & -> & Hy).
    destruct (finished_workers _ _ _ _ _ Hfin Hy) as (keyword & Hk & Hproc).
    destruct (process_keyword_entries _ _ _ _ _ Hproc) as (books & Hfetch & _).
    destruct (fetch_books_sound _ _ _ _ _ Hfetch) as (n & _ & -> & _).
    apply Forall_fmap, list.Forall_forall. intros i Hi. apply elem_of_seq in Hi.
    cbn. split; [done|]. split; [done | lia].
  - destruct (count_books_by_period_in_spec _ _ _ Hcounts) as [_ ->].
    apply length_filter.
Qed.

Lemma main_run_invariants_witness :
  main_in example_periods 1 mock_get ["A"; "B"] =
    Some (Return (RunOutput
      [Entry (PStr "X") (PInt 2005) "A"; Entry (PStr "Y") (PInt 2010) "B"]
      {[ (2004, 2005)%Z := 1; (2006, 2011)%Z := 1 ]}
      [Params "A" 1000 1; Params "B" 1000 1])) ∧
  NoDup (identifier <$>
           [Entry (PStr "X") (PInt 2005) "A"; Entry (PStr "Y") (PInt 2010) "B"]) ∧
  total_count ({[ (2004, 2005)%Z := 1; (2006, 2011)%Z := 1 ]} : gmap (Z * Z) nat) ≤ 2.
Proof.
  split; [exact example_run_A_then_B|].
  destruct (main_run_invariants example_periods 1 mock_get ["A"; "B"] _
              example_run_A_then_B) as (Hnd & _ & _ & Htot).
  split; [exact Hnd | exact Htot].
Defined.

(** ** parse_book_titles_and_dates *)

(** X17: parsing works record by record: the parse of two lists of
    records put end to end is the two parses put end to end, so pages
    can be parsed together or one by one; and the parsed list is as
    long as the input exactly when every record has an integer
    [first_publish_year]. *)
Theorem parse_book_titles_and_dates_pages (d1 d2 : list book) (keyword : string) :
  parse_book_titles_and_dates (d1 ++ d2) keyword =
    parse_book_titles_and_dates d1 keyword ++ parse_book_titles_and_dates d2 keyword ∧
  length (parse_book_titles_and_dates d1 keyword) ≤ length d1 ∧
  (length (parse_book_titles_and_dates d1 keyword) = length d1 ↔
   Forall (λ bk, isinstance_int (dict_get bk "first_publish_year" (PStr "N/A")) = true)
          d1).
Proof.
  split; [apply parse_app|]. rewrite parse_omap.
  induction d1 as [|bk d1 [IHle IHeq]]; [by split|].
  cbn [omap list_omap]. rewrite list.Forall_cons.
  destruct (isinstance_int (dict_get bk "first_publish_year" (PStr "N/A"))) eqn:Hint.
  - rewrite (parse_one_Some _ _ Hint). simpl. split; [lia|].
    rewrite <- IHeq. split; [intros; split; [done | lia] | intros [_ ?]; lia].
  - rewrite (parse_one_None _ _ Hint). simpl. split; [lia|].
    split; [lia | by intros [? _]].
Qed.

(** * Part V: properties of script_1.py *)

Module Script1Props.
Import Script1.

(** ** parse_books *)

Lemma list_strs_joinable l :
  if forallb (λ x, match x with JStr _ => true | _ => false end) l
  then ∃ ss, list_strs l = Return ss
  else list_strs l = Raise TypeError.
Proof.
  induction l as [|x l IH]; [by eexists|].
  destruct x; try done. cbn [forallb list_strs andb].
  destruct (forallb _ l).
  - destruct IH as [ss ->]. by eexists.
  - by rewrite IH.
Qed.

Lemma join_joinable sep v :
  if joinable v then ∃ s, join sep v = Return s else join sep v = Raise TypeError.
Proof.
  destruct v as [| | | |s|l|items]; try done; try by eexists.
  cbn [joinable join]. pose proof (list_strs_joinable l) as Hl.
  destruct (forallb _ l).
  - destruct Hl as [ss ->]. by eexists.
  - by rewrite Hl.
Qed.

(** A string that is not empty has a first character. *)
Lemma chars_nonempty c s : chars (String c s) ≠ [].
Proof.
  unfold chars. cbn [split_chars]. destruct (split_chars s) as [pending cs].
  by destruct (is_continuation c).
Qed.

Lemma first_publisher_headable v :
  if headable v
  then ∃ x, (if truthy v then index0 v else Return (JStr "N/A")) = Return x
  else ∃ e, (if truthy v then index0 v else Return (JStr "N/A")) = Raise e ∧
            e ≠ IndexError.
Proof.
  destruct v as [|[]|z|f|[|c s]|[|x l]|[|item items]]; cbn [headable truthy negb];
    try (by eexists); try (by exists TypeError); try (by exists KeyError).
  - destruct (Z.eqb_spec z 0); simpl; [by eexists | by exists TypeError].
  - destruct (float_is_zero f); simpl; [by eexists | by exists TypeError].
  - cbn [String.eqb negb index0]. pose proof (chars_nonempty c s) as Hne.
    destruct (chars (String c s)); [done | by eexists].
Qed.

Lemma parse_row_ok bk :
  row_ok bk = true →
  ∃ author first_publisher,
    parse_row bk =
    Return [dict_get bk "title" (JStr "N/A"); JStr author;
            dict_get bk "first_publish_year" (JStr "N/A"); first_publisher;
            dict_get bk "number_of_pages_median" (JStr "N/A")].
Proof.
  unfold row_ok, parse_row. intros [Hjoin Hhead]%andb_true_iff.
  pose proof (join_joinable ", " (dict_get bk "author_name" (JList [JStr "N/A"])))
    as Hj.
  pose proof (first_publisher_headable (dict_get bk "publisher" (JList [JStr "N/A"])))
    as Hh.
  rewrite Hjoin in Hj. rewrite Hhead in Hh.
  destruct Hj as [author ->]. destruct Hh as [x ->]. by exists author, x.
Qed.

Lemma row_error_None bk : row_error bk = None ↔ row_ok bk = true.
Proof.
  unfold row_error, row_ok. destruct (joinable _); [|done]. cbn [andb].
  destruct (dict_get bk "publisher" _) as [|[]|z|f| | |[|item items]];
    cbn [headable negb]; try done.
  - by destruct (z =? 0)%Z.
  - by destruct (float_is_zero f).
Qed.

(** A record with an error raises it. *)
Lemma parse_row_error bk e : row_error bk = Some e → parse_row bk = Raise e.
Proof.
  unfold row_error, parse_row.
  pose proof (join_joinable ", " (dict_get bk "author_name" (JList [JStr "N/A"])))
    as Hj.
  destruct (joinable _); [|intros [= <-]; by rewrite Hj].
  destruct Hj as [author ->]. cbn [rbind].
  destruct (dict_get bk "publisher" _) as [|[]|z|f| | |[|item items]]; try done.
  - by intros [= <-].
  - cbn [truthy]. destruct (Z.eqb_spec z 0); [done|]. by intros [= <-].
  - cbn [truthy]. destruct (float_is_zero f); [done|]. by intros [= <-].
  - by intros [= <-].
Qed.

Lemma row_error_not_IndexError bk : row_error bk ≠ Some IndexError.
Proof.
  unfold row_error. destruct (joinable _); [|done].
  destruct (dict_get bk "publisher" _) as [|[]|z|f| | |[|item items]]; try done.
  - by destruct (z =? 0)%Z.
  - by destruct (float_is_zero f).
Qed.

Lemma parse_loop_ok data acc :
  Forall (λ bk, row_ok bk = true) data →
  ∃ rows, parse_loop data acc = Return (acc ++ rows) ∧
          Forall2 (λ bk row, parse_row bk = Return row) data rows.
Proof.
  intros Hok. revert acc. induction Hok as [|bk data Hbk _ IH]; intros acc.
  - exists []. by rewrite app_nil_r.
  - destruct (parse_row_ok _ Hbk) as (author & pub & Hrow).
    cbn [parse_loop]. rewrite Hrow. cbn [rbind].
    destruct (IH (acc ++ [[dict_get bk "title" (JStr "N/A"); JStr author;
                           dict_get bk "first_publish_year" (JStr "N/A"); pub;
                           dict_get bk "number_of_pages_median" (JStr "N/A")]]))
      as (rows & -> & Hrows).
    eexists (_ :: rows). rewrite <- app_assoc. split; [done|]. by constructor.
Qed.

(** The loop raises the exception of the first record that has one. *)
Lemma parse_loop_first_error data acc e :
  first_error data = Some e → parse_loop data acc = Raise e.
Proof.
  revert acc. induction data as [|bk data IH]; intros acc Herr; [done|].
  cbn [first_error parse_loop] in *. destruct (row_error bk) as [e'|] eqn:Hbk.
  - injection Herr as ->. by rewrite (parse_row_error _ _ Hbk).
  - apply row_error_None in Hbk.
    destruct (parse_row_ok _ Hbk) as (author & pub & ->). cbn [rbind]. by apply IH.
Qed.

Lemma first_error_None data :
  first_error data = None ↔ Forall (λ bk, row_ok bk = true) data.
Proof.
  induction data as [|bk data IH]; [by split; [constructor|]|].
  cbn [first_error]. rewrite list.Forall_cons, <- IH, <- row_error_None.
  destruct (row_error bk); [|tauto]. split; [done | by intros [? _]].
Qed.

Lemma first_error_not_IndexError data : first_error data ≠ Some IndexError.
Proof.
  induction data as [|bk data IH]; [done|]. cbn [first_error].
  pose proof (row_error_not_IndexError bk) as Hbk.
  destruct (row_error bk); [congruence | done].
Qed.

Lemma parse_books_loop data : parse_books data = parse_loop data [].
Proof. by destruct data. Qed.

Lemma parse_books_ok data :
  Forall (λ bk, row_ok bk = true) data →
  ∃ rows, parse_books data = Return rows ∧
          Forall2 (λ bk row, parse_row bk = Return row) data rows.
Proof.
  intros Hok. rewrite parse_books_loop.
  destruct (parse_loop_ok data [] Hok) as (rows & Hrun & Hrows). eauto.
Qed.

Lemma rows_width data rows :
  Forall (λ bk, row_ok bk = true) data →
  Forall2 (λ bk row, parse_row bk = Return row) data rows →
  Forall (λ row, length row = length CSV_COLUMNS) rows.
Proof.
  intros Hok Hrows. induction Hrows as [|bk row data rows Hrow _ IH]; [constructor|].
  apply list.Forall_cons in Hok as [Hbk Hok].
  destruct (parse_row_ok _ Hbk) as (author & pub & Hrow').
  rewrite Hrow in Hrow'. injection Hrow' as ->. constructor; [done | by apply IH].
Qed.

(** Either every record can be parsed, or the parser raises the
    exception of the first one that cannot. *)
Lemma parse_books_outcome data :
  (Forall (λ bk, row_ok bk = true) data ∧ first_error data = None) ∨
  (∃ e, first_error data = Some e ∧ parse_books data = Raise e ∧
        (e = TypeError ∨ e = KeyError)).
Proof.
  destruct (first_error data) as [e|] eqn:Herr.
  - right. exists e. split; [done|].
    split; [rewrite parse_books_loop; by apply parse_loop_first_error|].
    pose proof (first_error_not_IndexError data) as Hne.
    destruct e; [by left | by right | congruence].
  - left. split; [by apply first_error_None | done].
Qed.

(** X18: [parse_books] returns exactly when every record can be parsed,
    that is, has an [author_name] that is a string, a list of strings
    or a dictionary, and a [publisher] that is a false value, a list or
    a string; otherwise it raises the exception of the first record
    that cannot: a [TypeError] when the [author_name] cannot be joined
    or the [publisher] is a true number or boolean, a [KeyError] when
    the [publisher] is a dictionary that is not empty.  It never
    raises [IndexError]: the index [publishers[0]] is guarded by the
    truth test. *)
Theorem parse_books_TypeError (data : list doc) :
  ((∃ rows, parse_books data = Return rows) ↔
   Forall (λ bk, row_ok bk = true) data) ∧
  (∀ e, parse_books data = Raise e ↔ first_error data = Some e) ∧
  parse_books data ≠ Raise IndexError.
Proof.
  destruct (parse_books_outcome data) as [[Hok Hnone]|(e & Herr & Hraise & He)].
  - destruct (parse_books_ok data Hok) as (rows & Hrun & _).
    rewrite Hrun, Hnone. split; [by split; eauto|]. split; [by split|done].
  - rewrite Hraise, Herr. split; [|split].
    + split; [by intros [? [=]]|]. intros Hok%first_error_None. congruence.
    + intros e'. split; congruence.
    + destruct He as [-> | ->]; done.
Qed.

Lemma parse_books_TypeError_witness :
  first_error [fellowship; object_publisher; no_authors] = Some KeyError ∧
  parse_books [fellowship; object_publisher; no_authors] = Raise KeyError ∧
  first_error [fellowship; no_authors; object_publisher] = Some TypeError ∧
  parse_books [fellowship; no_authors; object_publisher] = Raise TypeError.
Proof.
  split; [reflexivity|].
  split; [exact (proj2 (proj1 (proj2 (parse_books_TypeError
                   [fellowship; object_publisher; no_authors])) KeyError) eq_refl)|].
  split; [reflexivity|].
  exact (proj2 (proj1 (proj2 (parse_books_TypeError
           [fellowship; no_authors; object_publisher])) TypeError) eq_refl).
Defined.

(** X19: when [parse_books] returns, it returns one row for each
    record, in the order of the records; every row has the five
    fields of [CSV_COLUMNS], with the record's title, year and median
    number of pages, or ["N/A"] for a missing one, in the first, third
    and fifth field. *)
Theorem parse_books_rows (data : list doc) (rows : list (list jval)) :
  parse_books data = Return rows →
  length rows = length data ∧
  Forall (λ row, length row = length CSV_COLUMNS) rows ∧
  Forall2 (λ bk row,
             row !! 0 = Some (dict_get bk "title" (JStr "N/A")) ∧
             row !! 2 = Some (dict_get bk "first_publish_year" (JStr "N/A")) ∧
             row !! 4 = Some (dict_get bk "number_of_pages_median" (JStr "N/A")))
          data rows.
Proof.
  intros Hrun.
  destruct (parse_books_outcome data) as [[Hok _]|(e & _ & Hraise & _)].
  - destruct (parse_books_ok data Hok) as (rows' & Hrun' & Hrows).
    rewrite Hrun in Hrun'. injection Hrun' as <-.
    split; [symmetry; by eapply list.Forall2_length|].
    clear Hrun. induction Hrows as [|bk row data rows Hrow Hrows IH].
    + split; constructor.
    + apply list.Forall_cons in Hok as [Hbk Hok]. destruct (IH Hok) as [IH1 IH2].
      destruct (parse_row_ok _ Hbk) as (author & pub & Hrow').
      rewrite Hrow in Hrow'. injection Hrow' as ->.
      split; constructor; done.
  - rewrite Hraise in Hrun. done.
Qed.

Lemma parse_books_rows_witness :
  parse_books [fellowship; bare] =
    Return [[JStr "The Fellowship of the Ring"; JStr "J.R.R. Tolkien, Alan Lee";
             JInt 1954; JStr "Allen & Unwin"; JStr "N/A"];
            [JStr "N/A"; JStr "N/A"; JStr "N/A"; JStr "N/A"; JStr "N/A"]] ∧
  length [[JStr "The Fellowship of the Ring"; JStr "J.R.R. Tolkien, Alan Lee";
           JInt 1954; JStr "Allen & Unwin"; JStr "N/A"];
          [JStr "N/A"; JStr "N/A"; JStr "N/A"; JStr "N/A"; JStr "N/A"]] =
  length [fellowship; bare].
Proof.
  assert (parse_books [fellowship; bare] =
    Return [[JStr "The Fellowship of the Ring"; JStr "J.R.R. Tolkien, Alan Lee";
             JInt 1954; JStr "Allen & Unwin"; JStr "N/A"];
            [JStr "N/A"; JStr "N/A"; JStr "N/A"; JStr "N/A"; JStr "N/A"]]) as Hrun
    by (vm_compute; reflexivity).
  split; [exact Hrun|].
  exact (proj1 (parse_books_rows _ _ Hrun)).
Defined.

Lemma list_strs_fmap names : list_strs (JStr <$> names) = Return names.
Proof.
  induction names as [|s names IH]; [done|].
  rewrite fmap_cons. cbn [list_strs]. by rewrite IH.
Qed.

(** X20: the row of a record typed as the API documents it, with
    [author_name] and [publisher] either missing or lists: the authors
    are joined with a comma and a space, the first publisher is kept,
    and a missing list of authors, a missing publisher and an empty
    list of publishers all give ["N/A"]. *)
Theorem parse_row_typed (bk : doc) (authors : option (list string))
    (publishers : option (list jval)) :
  bk !! "author_name" = (λ names, JList (JStr <$> names)) <$> authors →
  bk !! "publisher" = JList <$> publishers →
  parse_row bk =
  Return [dict_get bk "title" (JStr "N/A");
          JStr (from_option (String.concat ", ") "N/A" authors);
          dict_get bk "first_publish_year" (JStr "N/A");
          default (JStr "N/A") (publishers ≫= head);
          dict_get bk "number_of_pages_median" (JStr "N/A")].
Proof.
  intros Hauthors Hpubs.
  assert (dict_get bk "author_name" (JList [JStr "N/A"]) =
          match authors with
          | Some names => JList (JStr <$> names)
          | None => JList [JStr "N/A"]
          end) as Ha
    by (unfold dict_get; rewrite Hauthors; by destruct authors).
  assert (dict_get bk "publisher" (JList [JStr "N/A"]) =
          match publishers with
          | Some pubs => JList pubs
          | None => JList [JStr "N/A"]
          end) as Hp
    by (unfold dict_get; rewrite Hpubs; by destruct publishers).
  unfold parse_row. rewrite Ha, Hp.
  destruct authors as [names|]; cbn [join from_option].
  - rewrite list_strs_fmap. cbn [rbind].
    destruct publishers as [[|x pubs]|]; reflexivity.
  - destruct publishers as [[|x pubs]|]; reflexivity.
Qed.

Lemma parse_row_typed_witness :
  fellowship !! "author_name" =
    (λ names, JList (JStr <$> names)) <$> Some ["J.R.R. Tolkien"; "Alan Lee"] ∧
  fellowship !! "publisher" =
    JList <$> Some [JStr "Allen & Unwin"; JStr "Houghton Mifflin"] ∧
  parse_row fellowship =
    Return [JStr "The Fellowship of the Ring"; JStr "J.R.R. Tolkien, Alan Lee";
            JInt 1954; JStr "Allen & Unwin"; JStr "N/A"].
Proof.
  split; [reflexivity|]. split; [reflexivity|].
  exact (parse_row_typed fellowship (Some ["J.R.R. Tolkien"; "Alan Lee"])
           (Some [JStr "Allen & Unwin"; JStr "Houghton Mifflin"]) eq_refl eq_refl).
Defined.

(** ** fetch_books *)

Lemma response_cases r : nonempty_page r ∨ last_page r ∨ r = Body None.
Proof.
  destruct r as [e| |[[|bk docs]|]].
  - right. left. left. by exists e.
  - right. left. right. by left.
  - right. left. right. by right.
  - left. by exists (bk :: docs).
  - by right; right.
Qed.

Lemma fetch_iter_nonempty title get st :
  nonempty_page (get (Params title (fs_page st))) →
  fetch_iter title get st =
  Continue (FetchState (fs_page st + 1)
                       (fs_books_data st ++ page_docs (get (Params title (fs_page st))))
                       (fs_requests st ++ [Params title (fs_page st)])).
Proof.
  intros (docs & Hget & Hne). unfold fetch_iter. rewrite Hget.
  by destruct docs.
Qed.

Lemma fetch_iter_last title get st :
  last_page (get (Params title (fs_page st))) →
  fetch_iter title get st =
  Break (FetchState (fs_page st) (fs_books_data st)
                    (fs_requests st ++ [Params title (fs_page st)])).
Proof.
  unfold fetch_iter. intros [[e ->]|[->| ->]]; [done..|].
  cbn [length Nat.eqb]. by rewrite app_nil_r.
Qed.

Lemma fetch_iter_no_docs title get st :
  get (Params title (fs_page st)) = Body None →
  fetch_iter title get st = Raised KeyError.
Proof. intros Hget. unfold fetch_iter. by rewrite Hget. Qed.

Lemma title_fetch_loop_S fuel title get st :
  fetch_loop (S fuel) title get st =
  match fetch_iter title get st with
  | Break st' => Some (Return st')
  | Raised e => Some (Raise e)
  | Continue st' => fetch_loop fuel title get st'
  end.
Proof. reflexivity. Qed.

(** A run of non-empty pages: the loop walks through all of them. *)
Lemma fetch_loop_nonempty_pages title get n fuel :
  ∀ start books_data issued,
  (∀ i, start ≤ i < start + n → nonempty_page (get (Params title i))) →
  fetch_loop (n + fuel) title get (FetchState start books_data issued) =
  fetch_loop fuel title get
    (FetchState (start + n)
                (books_data ++
                 concat ((λ i, page_docs (get (Params title i))) <$> seq start n))
                (issued ++ (Params title <$> seq start n))).
Proof.
  induction n as [|n IH]; intros start books_data issued Hpages.
  - cbn [Nat.add seq fmap list_fmap concat]. by rewrite Nat.add_0_r, !app_nil_r.
  - cbn [Nat.add]. rewrite title_fetch_loop_S, fetch_iter_nonempty by (apply Hpages; simpl; lia).
    cbn [fs_page fs_books_data fs_requests]. rewrite IH.
    + cbn [seq fmap list_fmap concat]. rewrite <- !app_assoc. cbn [app].
      by replace (start + 1 + n) with (start + S n) by lia;
         replace (start + 1) with (S start) by lia.
    + intros i Hi. apply Hpages. lia.
Qed.

(** Where a finished loop stands. *)
Lemma title_fetch_loop_sound title get fuel :
  ∀ start books_data issued r,
  fetch_loop fuel title get (FetchState start books_data issued) = Some r →
  ∃ n, n < fuel ∧
       (∀ i, start ≤ i < start + n → nonempty_page (get (Params title i))) ∧
       ((last_page (get (Params title (start + n))) ∧
         r = Return (FetchState (start + n)
                       (books_data ++
                        concat ((λ i, page_docs (get (Params title i))) <$> seq start n))
                       (issued ++ (Params title <$> seq start (S n))))) ∨
        (get (Params title (start + n)) = Body None ∧ r = Raise KeyError)).
Proof.
  induction fuel as [|fuel IH]; intros start books_data issued r Hrun; [done|].
  rewrite title_fetch_loop_S in Hrun.
  destruct (response_cases (get (Params title start))) as [Hne|[Hlast|Hnone]].
  - rewrite fetch_iter_nonempty in Hrun by done.
    cbn [fs_page fs_books_data fs_requests] in Hrun.
    destruct (IH _ _ _ _ Hrun) as (n & Hn & Hpages & Hend).
    replace (start + 1) with (S start) in * by lia.
    exists (S n). split; [lia|]. split.
    { intros i Hi. destruct (decide (i = start)) as [->|?]; [done|].
      apply Hpages. lia. }
    replace (start + S n) with (S start + n) by lia.
    destruct Hend as [[Hlast ->]|[Hnone ->]]; [left | by right].
    split; [done|]. cbn [seq fmap list_fmap concat]. by rewrite <- !app_assoc.
  - rewrite fetch_iter_last in Hrun by done. injection Hrun as <-.
    exists 0. split; [lia|]. split; [intros i Hi; lia|]. left.
    rewrite Nat.add_0_r. split; [done|].
    cbn [fs_page fs_books_data fs_requests seq fmap list_fmap concat].
    by rewrite app_nil_r.
  - rewrite fetch_iter_no_docs in Hrun by done. injection Hrun as <-.
    exists 0. split; [lia|]. split; [intros i Hi; lia|]. right.
    by rewrite Nat.add_0_r.
Qed.

Lemma title_fetch_books_sound get title fuel r :
  fetch_books fuel get title = Some r →
  ∃ n, n < fuel ∧
       (∀ i, 1 ≤ i ≤ n → nonempty_page (get (Params title i))) ∧
       ((last_page (get (Params title (S n))) ∧
         r = Return (concat ((λ i, page_docs (get (Params title i))) <$> seq 1 n),
                     Params title <$> seq 1 (S n))) ∨
        (get (Params title (S n)) = Body None ∧ r = Raise KeyError)).
Proof.
  unfold fetch_books.
  destruct (fetch_loop fuel title get _) as [r'|] eqn:Hrun; [|done].
  simpl. intros [= <-].
  destruct (title_fetch_loop_sound _ _ _ _ _ _ _ Hrun) as (n & Hn & Hpages & Hend).
  exists n. split; [done|]. split; [intros i Hi; apply Hpages; lia|].
  destruct Hend as [[Hlast ->]|[Hnone ->]]; [left | by right].
  done.
Qed.

(** X21: whenever [fetch_books] ends, it has walked over non-empty
    pages 1 to n, whatever their size, and met at page n+1 either a
    failed request, a body that is not JSON or an empty page, in which
    case it returns the records of the pages 1 to n after n+1 requests,
    or a body without [docs], in which case it raises [KeyError]. *)
Theorem fetch_books_ends (get : params → response) (title : string) (fuel : nat)
    (r : result (list doc * list params)) :
  fetch_books fuel get title = Some r →
  ∃ n, n < fuel ∧
       (∀ i, 1 ≤ i ≤ n → nonempty_page (get (Params title i))) ∧
       ((last_page (get (Params title (S n))) ∧
         r = Return (concat ((λ i, page_docs (get (Params title i))) <$> seq 1 n),
                     Params title <$> seq 1 (S n))) ∨
        (get (Params title (S n)) = Body None ∧ r = Raise KeyError)).
Proof. apply title_fetch_books_sound. Qed.

Lemma fetch_books_ends_witness :
  fetch_books 5 two_pages "t" =
    Some (Return ([fellowship; bare], [Params "t" 1; Params "t" 2; Params "t" 3])) ∧
  ∃ n, n < 5 ∧
       (∀ i, 1 ≤ i ≤ n → nonempty_page (two_pages (Params "t" i))) ∧
       ((last_page (two_pages (Params "t" (S n))) ∧
         Return ([fellowship; bare], [Params "t" 1; Params "t" 2; Params "t" 3]) =
         Return (concat ((λ i, page_docs (two_pages (Params "t" i))) <$> seq 1 n),
                 Params "t" <$> seq 1 (S n))) ∨
        (two_pages (Params "t" (S n)) = Body None ∧
         Return ([fellowship; bare], [Params "t" 1; Params "t" 2; Params "t" 3]) =
         Raise KeyError)).
Proof.
  assert (fetch_books 5 two_pages "t" =
    Some (Return ([fellowship; bare], [Params "t" 1; Params "t" 2; Params "t" 3])))
    as Hrun by reflexivity.
  split; [exact Hrun|].
  exact (fetch_books_ends two_pages "t" 5 _ Hrun).
Defined.

Lemma fetch_books_complete get title n fuel :
  (∀ i, 1 ≤ i ≤ n → nonempty_page (get (Params title i))) →
  n < fuel →
  (last_page (get (Params title (S n))) →
   fetch_books fuel get title =
   Some (Return (concat ((λ i, page_docs (get (Params title i))) <$> seq 1 n),
                 Params title <$> seq 1 (S n)))) ∧
  (get (Params title (S n)) = Body None →
   fetch_books fuel get title = Some (Raise KeyError)).
Proof.
  intros Hpages Hfuel. unfold fetch_books.
  replace fuel with (n + S (fuel - S n)) by lia.
  rewrite fetch_loop_nonempty_pages by (intros i Hi; apply Hpages; lia).
  rewrite title_fetch_loop_S. split; intros Hend.
  - rewrite fetch_iter_last by done. cbn [mbind option_bind rbind fs_books_data
                                           fs_requests fs_page app].
    by rewrite seq_S, fmap_app.
  - by rewrite fetch_iter_no_docs.
Qed.

(** X22: [fetch_books] goes on as long as pages are not empty, short or
    not: after the non-empty pages 1 to n, a failed request, a body
    that is not JSON or an empty page at n+1 makes it return the
    records of the n pages, the request for page n+1 being the last
    of n+1 requests. *)
Theorem fetch_books_until_empty_page (get : params → response) (title : string)
    (n fuel : nat) :
  (∀ i, 1 ≤ i ≤ n → nonempty_page (get (Params title i))) →
  last_page (get (Params title (S n))) →
  n < fuel →
  fetch_books fuel get title =
  Some (Return (concat ((λ i, page_docs (get (Params title i))) <$> seq 1 n),
                Params title <$> seq 1 (S n))).
Proof.
  intros Hpages Hlast Hfuel.
  by apply (fetch_books_complete get title n fuel Hpages Hfuel).
Qed.

Lemma two_pages_nonempty i : 1 ≤ i ≤ 2 → nonempty_page (two_pages (Params "t" i)).
Proof.
  intros Hi. assert (i = 1 ∨ i = 2) as [-> | ->] by lia; eexists; by split.
Qed.

Lemma fetch_books_until_empty_page_witness :
  (∀ i, 1 ≤ i ≤ 2 → nonempty_page (two_pages (Params "t" i))) ∧
  last_page (two_pages (Params "t" 3)) ∧
  fetch_books 3 two_pages "t" =
  Some (Return (concat ((λ i, page_docs (two_pages (Params "t" i))) <$> seq 1 2),
                Params "t" <$> seq 1 3)).
Proof.
  assert (last_page (two_pages (Params "t" 3))) as Hlast by (by right; right).
  split; [exact two_pages_nonempty|]. split; [exact Hlast|].
  exact (fetch_books_until_empty_page two_pages "t" 2 3 two_pages_nonempty Hlast
           (le_n 3)).
Defined.

(** X23: a body without [docs] is not handled: met after the non-empty
    pages 1 to n, it makes [fetch_books] raise [KeyError], and the
    records of these pages are not returned. *)
Theorem fetch_books_KeyError (get : params → response) (title : string)
    (n fuel : nat) :
  (∀ i, 1 ≤ i ≤ n → nonempty_page (get (Params title i))) →
  get (Params title (S n)) = Body None →
  n < fuel →
  fetch_books fuel get title = Some (Raise KeyError).
Proof.
  intros Hpages Hnone Hfuel.
  by apply (fetch_books_complete get title n fuel Hpages Hfuel).
Qed.

Lemma page_then_no_docs_nonempty i :
  1 ≤ i ≤ 1 → nonempty_page (page_then_no_docs (Params "t" i)).
Proof. intros Hi. assert (i = 1) as -> by lia. eexists. by split. Qed.

Lemma fetch_books_KeyError_witness :
  (∀ i, 1 ≤ i ≤ 1 → nonempty_page (page_then_no_docs (Params "t" i))) ∧
  page_then_no_docs (Params "t" 2) = Body None ∧
  fetch_books 2 page_then_no_docs "t" = Some (Raise KeyError).
Proof.
  split; [exact page_then_no_docs_nonempty|]. split; [reflexivity|].
  exact (fetch_books_KeyError page_then_no_docs "t" 1 2 page_then_no_docs_nonempty
           eq_refl (le_n 2)).
Defined.

(** X24: on a source whose pages are never empty the loop never ends:
    no number of iterations makes [fetch_books], and so [main],
    return. *)
Theorem fetch_books_runs_forever (get : params → response) :
  (∀ title i, 1 ≤ i → nonempty_page (get (Params title i))) →
  ∀ fuel, (∀ title, fetch_books fuel get title = None) ∧ main fuel get = None.
Proof.
  intros Hpages fuel.
  assert (∀ title, fetch_books fuel get title = None) as Hnone.
  { intros title.
    destruct (fetch_books fuel get title) as [r|] eqn:Hrun; [|done].
    destruct (title_fetch_books_sound _ _ _ _ Hrun) as (n & _ & _ & Hend).
    destruct (Hpages title (S n)) as (docs & Hget & Hne); [lia|].
    rewrite Hget in Hend.
    destruct Hend as [[[[e [=]]|[[=]|[= ->]]] _]|[[=] _]]. done. }
  split; [done|]. unfold main. by rewrite Hnone.
Qed.

Lemma fetch_books_runs_forever_witness :
  (∀ title i, 1 ≤ i → nonempty_page (endless (Params title i))) ∧
  (∀ title, fetch_books 4 endless title = None) ∧ main 4 endless = None.
Proof.
  assert (∀ title i, 1 ≤ i → nonempty_page (endless (Params title i))) as Hpages
    by (intros title i _; eexists; by split).
  split; [exact Hpages|].
  exact (fetch_books_runs_forever endless Hpages 4).
Defined.

(** ** main *)

(** X25: how [main] can end before it builds its data frames, when
    every body that decodes is an object whose [docs], if present, is a
    list of objects.  It reports a failed fetch only when [fetch_books]
    returned no record; it never reports a failed parse; when it goes
    on to build the data frames, it does so with one row of five
    fields for each record fetched; and an exception that leaves this
    part is either the [KeyError] of [fetch_books] or the [TypeError]
    or [KeyError] that [parse_books] raises for the first record it
    cannot parse. *)
Theorem main_outcomes (fuel : nat) (get : params → response)
    (r : result main_outcome) :
  main fuel get = Some r →
  match r with
  | Return FetchFailed =>
      ∃ issued, fetch_books fuel get TITLE = Some (Return ([], issued))
  | Return ParseFailed => False
  | Return (Saved books) =>
      ∃ data issued,
        fetch_books fuel get TITLE = Some (Return (data, issued)) ∧
        data ≠ [] ∧ parse_books data = Return books ∧
        length books = length data ∧
        Forall (λ row, length row = length CSV_COLUMNS) books
  | Raise e =>
      (e = KeyError ∧ fetch_books fuel get TITLE = Some (Raise KeyError)) ∨
      ((e = TypeError ∨ e = KeyError) ∧
       ∃ data issued, fetch_books fuel get TITLE = Some (Return (data, issued)) ∧
                      first_error data = Some e ∧
                      parse_books data = Raise e)
  end.
Proof.
  unfold main.
  destruct (fetch_books fuel get TITLE) as [[[data issued]|e]|] eqn:Hfetch;
    [| |done]; simpl; intros [= <-].
  - destruct data as [|bk data]; [by exists issued|].
    destruct (parse_books_outcome (bk :: data)) as [[Hok _]|(e & Herr & Hraise & He)].
    + destruct (parse_books_ok _ Hok) as (rows & Hparse & Hrows).
      rewrite Hparse. cbn [rbind].
      pose proof (list.Forall2_length _ _ _ Hrows) as Hlen.
      destruct rows as [|row rows]; [done|].
      exists (bk :: data), issued. split; [done|]. split; [done|].
      split; [done|]. split; [done|]. by eapply rows_width.
    + rewrite Hraise. cbn [rbind]. right. split; [done|].
      by exists (bk :: data), issued.
  - destruct (title_fetch_books_sound _ _ _ _ Hfetch)
      as (n & _ & _ & [[_ [=]]|[_ [= ->]]]).
    left. done.
Qed.

Lemma main_outcomes_witness :
  main 5 two_pages = Some (Return (Saved
    [[JStr "The Fellowship of the Ring"; JStr "J.R.R. Tolkien, Alan Lee";
      JInt 1954; JStr "Allen & Unwin"; JStr "N/A"];
     [JStr "N/A"; JStr "N/A"; JStr "N/A"; JStr "N/A"; JStr "N/A"]])) ∧
  ∃ data issued,
    fetch_books 5 two_pages TITLE = Some (Return (data, issued)) ∧
    data ≠ [] ∧ length data = 2.
Proof.
  assert (main 5 two_pages = Some (Return (Saved
    [[JStr "The Fellowship of the Ring"; JStr "J.R.R. Tolkien, Alan Lee";
      JInt 1954; JStr "Allen & Unwin"; JStr "N/A"];
     [JStr "N/A"; JStr "N/A"; JStr "N/A"; JStr "N/A"; JStr "N/A"]]))) as Hrun
    by (vm_compute; reflexivity).
  split; [exact Hrun|].
  destruct (main_outcomes 5 two_pages _ Hrun)
    as (data & issued & Hfetch & Hne & _ & Hlen & _).
  exists data, issued. split; [exact Hfetch|]. split; [exact Hne|].
  symmetry. exact Hlen.
Defined.

End Script1Props.
